(** * compas: frames and best-fit primitives

    A shallow embedding of [compas.geometry.primitives.frame] (class
    [Frame]) and [compas.geometry.bestfit.bestfit_numpy], followed by the
    properties of these functions.

    Python floats are idealised as real numbers: an equality "within
    tolerance" of the floating-point program is an exact equality here.
    numpy's [nan] (0/0, square root of a negative number) has no counterpart
    in [R]; where the program can produce one this is written out at the
    definition. *)

From Stdlib Require Import Ascii String.
From Stdlib Require Import Reals Lra Psatz List ZArith Lia Bool Permutation.
Import ListNotations.

Local Open Scope R_scope.

(* ================================================================== *)
(** * Part I: definitions *)
(* ================================================================== *)

(** ** Exceptions and the error monad *)

(** The exceptions the modelled code can raise.  [KeyError], [ValueError],
    [ZeroDivisionError], [TypeError] and [IndexError] are Python's built-in ones,
    [LinAlgError] is numpy's.  The last four are the error kinds of the
    specification (section 7); the sources define none of them, and of
    these only [DegenerateInputError] is raised here, by the operations
    modelled from the specification. *)
Inductive exn : Set :=
| KeyError
| ValueError
| ZeroDivisionError
| TypeError
| IndexError
| LinAlgError
| DegenerateInputError
| InsufficientDataError
| ConvergenceError
| InvalidRepresentationError.

(** A call either raises ([inl]) or returns ([inr]). *)
Definition result (A : Type) : Type := (exn + A)%type.

Definition ret {A : Type} (a : A) : result A := inr a.
Definition raise {A : Type} (e : exn) : result A := inl e.

Definition bind {A B : Type} (c : result A) (k : A -> result B) : result B :=
  match c with
  | inl e => inl e
  | inr a => k a
  end.

Declare Scope result_scope.
Delimit Scope result_scope with result.
Notation "x <- c ;; k" := (bind c (fun x => k))
  (at level 61, c at next level, right associativity) : result_scope.

(** Python's float division [a / b]. *)
Definition py_div (a b : R) : result R :=
  if Req_dec_T b 0 then raise ZeroDivisionError else ret (a / b).

(** ** Points and vectors *)

(** [Point] and [Vector] hold three floats. *)
Record Vec : Set := mkVec { vx : R; vy : R; vz : R }.

Definition Point : Set := Vec.

(** Modelled from the spec: [add_vectors] (module [compas.geometry.basic]
    and the classes [Point] and [Vector] are not part of the sources);
    section 4.1 names the operations add, subtract, dot, cross, length,
    normalize and scale. *)
Definition add_vectors (u v : Vec) : Vec :=
  mkVec (vx u + vx v) (vy u + vy v) (vz u + vz v).

(** Modelled from the spec: [subtract_vectors] (section 4.1). *)
Definition subtract_vectors (u v : Vec) : Vec :=
  mkVec (vx u - vx v) (vy u - vy v) (vz u - vz v).

(** Modelled from the spec: [scale_vector] (section 4.1). *)
Definition scale_vector (v : Vec) (f : R) : Vec :=
  mkVec (vx v * f) (vy v * f) (vz v * f).

(** Modelled from the spec: [dot_vectors] (section 4.1). *)
Definition dot_vectors (u v : Vec) : R :=
  vx u * vx v + vy u * vy v + vz u * vz v.

(** Modelled from the spec: [cross_vectors] and [Vector.cross]
    (section 4.1). *)
Definition cross_vectors (u v : Vec) : Vec :=
  mkVec (vy u * vz v - vz u * vy v)
        (vz u * vx v - vx u * vz v)
        (vx u * vy v - vy u * vx v).

(** Modelled from the spec: [length_vector] and [Vector.length]
    (section 4.1). *)
Definition length_vector (v : Vec) : R := sqrt (dot_vectors v v).

(** Modelled from the spec: [Vector.unitize] (class [Vector] is not part
    of the sources).  Section 4.1: normalising a zero-length vector fails
    with a [DegenerateInputError]; any other vector is divided by its
    length. *)
Definition unitize (v : Vec) : result Vec :=
  let l := length_vector v in
  if Req_dec_T l 0 then raise DegenerateInputError
  else ret (mkVec (vx v / l) (vy v / l) (vz v / l)).

Definition zero_vector : Vec := mkVec 0 0 0.

(** ** 3x3 matrices and affine transformations *)

(** A 3x3 matrix, by rows. *)
Record Mat3 : Set := mkMat3 { row0 : Vec; row1 : Vec; row2 : Vec }.

Definition col0 (M : Mat3) : Vec := mkVec (vx (row0 M)) (vx (row1 M)) (vx (row2 M)).
Definition col1 (M : Mat3) : Vec := mkVec (vy (row0 M)) (vy (row1 M)) (vy (row2 M)).
Definition col2 (M : Mat3) : Vec := mkVec (vz (row0 M)) (vz (row1 M)) (vz (row2 M)).

Definition transpose (M : Mat3) : Mat3 := mkMat3 (col0 M) (col1 M) (col2 M).

Definition from_columns (a b c : Vec) : Mat3 := transpose (mkMat3 a b c).

Definition identity3 : Mat3 := mkMat3 (mkVec 1 0 0) (mkVec 0 1 0) (mkVec 0 0 1).

Definition mat_vec (M : Mat3) (v : Vec) : Vec :=
  mkVec (dot_vectors (row0 M) v) (dot_vectors (row1 M) v) (dot_vectors (row2 M) v).

Definition mat_mul (A B : Mat3) : Mat3 :=
  from_columns (mat_vec A (col0 B)) (mat_vec A (col1 B)) (mat_vec A (col2 B)).

Definition mat_scale (f : R) (M : Mat3) : Mat3 :=
  mkMat3 (scale_vector (row0 M) f) (scale_vector (row1 M) f) (scale_vector (row2 M) f).

Definition det3 (M : Mat3) : R :=
  dot_vectors (row0 M) (cross_vectors (row1 M) (row2 M)).

(** The homogeneous 4x4 matrix of an affine map, last row [0 0 0 1]:
    rotation block [lin] and translation column [translation]. *)
Record Matrix : Set := mkMatrix { lin : Mat3; translation : Vec }.

(** Modelled from the spec: [Point.transform] (not part of the sources):
    the point is mapped by the transformation matrix. *)
Definition transform_point (T : Matrix) (p : Point) : Point :=
  add_vectors (mat_vec (lin T) p) (translation T).

(** Modelled from the spec: [Transformation.__mul__] (not part of the
    sources): composition by multiplication of the transformation
    matrices (section 4.4). *)
Definition multiply_matrices (A B : Matrix) : Matrix :=
  mkMatrix (mat_mul (lin A) (lin B))
           (add_vectors (mat_vec (lin A) (translation B)) (translation A)).

(** Modelled from the spec: [inverse] (module [transformations] is not
    part of the sources): the inverse of the transformation matrix; a
    singular matrix has none, which is reported as degenerate input
    (section 7). *)
Definition inverse (T : Matrix) : result Matrix :=
  let d := det3 (lin T) in
  if Req_dec_T d 0 then raise DegenerateInputError
  else
    let A := lin T in
    let Ainv :=
      from_columns (scale_vector (cross_vectors (row1 A) (row2 A)) (/ d))
                   (scale_vector (cross_vectors (row2 A) (row0 A)) (/ d))
                   (scale_vector (cross_vectors (row0 A) (row1 A)) (/ d)) in
    ret (mkMatrix Ainv (scale_vector (mat_vec Ainv (translation T)) (-1))).

(** Modelled from the spec: [matrix_from_basis_vectors] (not part of the
    sources).  Section 4.3, basis vectors to matrix: orthonormalise
    (Gram-Schmidt: the z-axis from the cross product of x-axis and y-axis,
    the y-axis re-derived as z-axis times x-axis; the x-axis is
    authoritative), then assemble the axes as columns. *)
Definition matrix_from_basis_vectors (xaxis yaxis : Vec) : result Matrix :=
  (xaxis <- unitize xaxis ;;
   yaxis <- unitize yaxis ;;
   zaxis <- unitize (cross_vectors xaxis yaxis) ;;
   let yaxis := cross_vectors zaxis xaxis in
   ret (mkMatrix (from_columns xaxis yaxis zaxis) zero_vector))%result.

(** Modelled from the spec: [basis_vectors_from_matrix] and the property
    [Transformation.basis_vectors] (not part of the sources).  Section 4.3,
    matrix to basis vectors: extraction of the first two columns. *)
Definition basis_vectors (T : Matrix) : Vec * Vec := (col0 (lin T), col1 (lin T)).

(** ** Frame *)

(** The attributes [_point], [_xaxis], [_yaxis] of a [Frame] object.  The
    [None] placeholders [__init__] writes first are overwritten by its
    three assignments before any of them is read, so they are never
    observed. *)
Record Frame : Set := mkFrame { _point : Point; _xaxis : Vec; _yaxis : Vec }.

(** A method call runs on the object [self] and leaves it in a state,
    whether it returns or raises. *)
Definition method (A : Type) : Type := Frame -> result A * Frame.

Definition m_ret {A : Type} (a : A) : method A := fun self => (inr a, self).
Definition m_raise {A : Type} (e : exn) : method A := fun self => (inl e, self).

Definition m_bind {A B : Type} (c : method A) (k : A -> method B) : method B :=
  fun self =>
    match c self with
    | (inl e, self') => (inl e, self')
    | (inr a, self') => k a self'
    end.

Declare Scope method_scope.
Delimit Scope method_scope with method.
Notation "x <- c ;; k" := (m_bind c (fun x => k))
  (at level 61, c at next level, right associativity) : method_scope.
Notation "c ;; k" := (m_bind c (fun _ => k))
  (at level 61, right associativity) : method_scope.

(** The value the [xaxis] setter stores: [Vector( *vector)], unitized. *)
Definition xaxis_value (vector : Vec) : result Vec :=
  (xaxis <- unitize vector ;;
   ret xaxis)%result.

(** The value the [yaxis] setter stores, from the stored x-axis. *)
Definition yaxis_value (self_xaxis vector : Vec) : result Vec :=
  (yaxis <- unitize vector ;;
   zaxis <- unitize (cross_vectors self_xaxis yaxis) ;;
   ret (cross_vectors zaxis self_xaxis))%result.

(** [point.setter] *)
Definition set_point (point : Vec) : method unit :=
  fun self => (inr tt, mkFrame point (_xaxis self) (_yaxis self)).

(** [xaxis.setter] *)
Definition set_xaxis (vector : Vec) : method unit :=
  fun self =>
    match xaxis_value vector with
    | inl e => (inl e, self)
    | inr xaxis => (inr tt, mkFrame (_point self) xaxis (_yaxis self))
    end.

(** [yaxis.setter] *)
Definition set_yaxis (vector : Vec) : method unit :=
  fun self =>
    match yaxis_value (_xaxis self) vector with
    | inl e => (inl e, self)
    | inr yaxis => (inr tt, mkFrame (_point self) (_xaxis self) yaxis)
    end.

(** The object before [__init__] has assigned its attributes;
    [zero_vector] stands for the placeholder [None]. *)
Definition Frame_new : Frame := mkFrame zero_vector zero_vector zero_vector.

(** [Frame.__init__]: the three assignments [self.point = point],
    [self.xaxis = xaxis], [self.yaxis = yaxis], in this order; the call
    [Frame(point, xaxis, yaxis)] gives the object, or the exception of a
    setter. *)
Definition Frame_init (point xaxis yaxis : Vec) : result Frame :=
  match (set_point point ;;
         set_xaxis xaxis ;;
         set_yaxis yaxis)%method Frame_new with
  | (inr _, self) => inr self
  | (inl e, _) => inl e
  end.

(** [Frame.worldXY] *)
Definition worldXY : result Frame :=
  Frame_init (mkVec 0 0 0) (mkVec 1 0 0) (mkVec 0 1 0).

(** The frame [Frame.worldXY()] returns. *)
Definition world_xy : Frame := mkFrame (mkVec 0 0 0) (mkVec 1 0 0) (mkVec 0 1 0).

(** [Frame.normal] and [Frame.zaxis] *)
Definition normal (self : Frame) : Vec := cross_vectors (_xaxis self) (_yaxis self).
Definition zaxis (self : Frame) : Vec := normal self.

(** [Frame.__setitem__] *)
Definition setitem (key : Z) (value : Vec) : method unit :=
  (if (key =? 0)%Z then set_point value ;; m_ret tt
   else if (key =? 1)%Z then set_xaxis value ;; m_ret tt
   else
     (if (key =? 2)%Z then set_yaxis value else m_ret tt) ;;
     m_raise KeyError)%method.

(** Modelled from the spec: [matrix_from_frame] and
    [Transformation.from_frame] (not part of the sources).  Section 4.4:
    the frame's transformation matrix, translation = origin, rotation =
    basis vectors. *)
Definition matrix_from_frame (frame : Frame) : Matrix :=
  mkMatrix (from_columns (_xaxis frame) (_yaxis frame) (zaxis frame)) (_point frame).

(** [Frame.represent_point_in_local_coordinates] *)
Definition represent_point_in_local_coordinates (self : Frame) (point : Point)
  : result Point :=
  (let pt := subtract_vectors point (_point self) in
   R <- matrix_from_basis_vectors (_xaxis self) (_yaxis self) ;;
   T <- inverse R ;;
   ret (transform_point T pt))%result.

(** [Frame.represent_point_in_global_coordinates] *)
Definition represent_point_in_global_coordinates (self : Frame) (point : Point)
  : Point :=
  let T := matrix_from_frame self in
  transform_point T point.

(** [Frame.transform] *)
Definition transform (transformation : Matrix) : method unit :=
  fun self =>
    let T := multiply_matrices transformation (matrix_from_frame self) in
    let point := translation T in
    let '(xaxis, yaxis) := basis_vectors T in
    (set_point point ;;
     set_xaxis xaxis ;;
     set_yaxis yaxis)%method self.

(** The nested loop of [from_list]: entry [(i, j)] of the 4x4 matrix is
    [values[i * 4 + j]]. *)
Definition rows_4x4 (values : list R) : list (list R) :=
  map (fun i => map (fun j => nth (i * 4 + j) values 0) (seq 0 4)) (seq 0 4).

(** [Frame.from_list].  ([values.extend] also lengthens the list of the
    caller, which is not followed here.)  [from_matrix] goes through
    [decompose_matrix] and [matrix_from_euler_angles], which are not part
    of the sources and of which the specification says nothing: it is a
    parameter. *)
Section FromList.

Variable from_matrix : list (list R) -> result Frame.

Definition from_list (values : list R) : result Frame :=
  let values :=
    if (length values =? 12)%nat then values ++ [0; 0; 0; 1] else values in
  if negb (length values =? 16)%nat then raise ValueError
  else
    let matrix := rows_4x4 values in
    from_matrix matrix.

End FromList.

(** ** numpy arrays *)

(** A row divided by a scalar, as in [sum(xyz, axis=0) / n]. *)
Definition divide_vector (v : Vec) (n : R) : Vec :=
  mkVec (vx v / n) (vy v / n) (vz v / n).

(** An N x 3 array is a list of rows.  [sum(xyz, axis=0)] *)
Definition sum_vectors (xyz : list Vec) : Vec :=
  fold_right add_vectors zero_vector xyz.

Definition sum_list (l : list R) : R := fold_right Rplus 0 l.

(** [numpy.mean] of a one-dimensional array ([nan] on an empty one, which
    [R] does not have). *)
Definition mean (l : list R) : R := sum_list l / INR (length l).

Definition zero_matrix : Mat3 := mkMat3 zero_vector zero_vector zero_vector.

Definition mat_add (A B : Mat3) : Mat3 :=
  mkMat3 (add_vectors (row0 A) (row0 B))
         (add_vectors (row1 A) (row1 B))
         (add_vectors (row2 A) (row2 B)).

(** The 3x3 matrix [u v^T]. *)
Definition outer (u v : Vec) : Mat3 :=
  mkMat3 (scale_vector v (vx u)) (scale_vector v (vy u)) (scale_vector v (vz u)).

(** [Yt.T.dot(Yt)] for an N x 3 array [Yt]: entry (j, k) is the sum over
    the rows of [Yt[i][j] * Yt[i][k]]. *)
Definition gram (Yt : list Vec) : Mat3 :=
  fold_right (fun y acc => mat_add (outer y y) acc) zero_matrix Yt.

(** [numpy.sqrt] of a scalar: [nan] ([None]) below zero. *)
Definition np_sqrt (t : R) : option R :=
  if Rlt_dec t 0 then None else Some (sqrt t).

(** A row of the N x 4 array of the sphere fit, and its 4 x 1 solution. *)
Record Row4 : Set := mkRow4 { c0 : R; c1 : R; c2 : R; c3 : R }.

Definition dot4 (a b : Row4) : R :=
  c0 a * c0 b + c1 a * c1 b + c2 a * c2 b + c3 a * c3 b.

(** The local function [dist] of [bestfit_circle_numpy], over the arrays
    [x] and [y] it closes over. *)
Definition circle_dist (x y : list R) (xc yc : R) : list R :=
  map (fun xy => sqrt ((fst xy - xc) ^ 2 + (snd xy - yc) ^ 2)) (combine x y).

(** The local function [f] of [bestfit_circle_numpy]. *)
Definition circle_f (x y : list R) (c : R * R) : list R :=
  let Ri := circle_dist x y (fst c) (snd c) in
  map (fun r => r - mean Ri) Ri.

(** ** Best-fit estimators *)

Section Bestfit.

(** [scipy.linalg.svd] of a 3x3 matrix: [(u, s, vT)], or an exception. *)
Variable svd : Mat3 -> result (Mat3 * Vec * Mat3).

(** [numpy.linalg.lstsq(A, f)], first component of its result. *)
Variable lstsq : list Row4 -> list R -> result Row4.

(** [scipy.optimize.leastsq(f, c0)]: the parameters and the integer flag
    [ier]. *)
Variable leastsq : (R * R -> list R) -> R * R -> result ((R * R) * Z).

(** [pca_numpy], [local_coords_numpy], [global_coords_numpy]: imported
    from modules that are not part of the sources. *)
Variable pca_numpy : list Vec -> result (Vec * Mat3 * Vec).
Variable local_coords_numpy : Vec -> Mat3 -> list Vec -> result (list Vec).
Variable global_coords_numpy : Vec -> Mat3 -> list Vec -> result (list Vec).

(** [bestfit_plane_numpy].  [c] is the 1 x 3 array holding the centroid.
    [n] is a Python int, so [1.0 / (n - 1.0)] is Python's division; the
    division by [n] is numpy's, which gives [nan] for [n = 0]. *)
Definition bestfit_plane_numpy (points : list Vec) : result (list Vec * Vec) :=
  (let xyz := points in
   let n := INR (length xyz) in
   m <- py_div 1 (n - 1) ;;
   let c := [divide_vector (sum_vectors xyz) n] in
   let Yt := map (fun p => subtract_vectors p (hd zero_vector c)) xyz in
   let C := mat_scale m (gram Yt) in
   usv <- svd C ;;
   let '(u, s, vT) := usv in
   let w := row2 vT in
   ret (c, w))%result.

(** [bestfit_sphere_numpy].  The radius, a one-element array in the
    code, is given by its element. *)
Definition bestfit_sphere_numpy (points : list Vec) : result (Vec * option R) :=
  (let spX := map vx points in
   let spY := map vy points in
   let spZ := map vz points in
   let A := map (fun xyz => let '(x, (y, z)) := xyz in mkRow4 (x * 2) (y * 2) (z * 2) 1)
                (combine spX (combine spY spZ)) in
   let f := map (fun xyz => let '(x, (y, z)) := xyz in x * x + y * y + z * z)
                (combine spX (combine spY spZ)) in
   C <- lstsq A f ;;
   let t := c0 C * c0 C + c1 C * c1 C + c2 C * c2 C + c3 C in
   let radius := np_sqrt t in
   ret (mkVec (c0 C) (c1 C) (c2 C), radius))%result.

(** [bestfit_circle_numpy].  The first component is what the call
    prints.  The local functions [dist] and [f] are [circle_dist x y] and
    [circle_f x y]. *)
Definition bestfit_circle_numpy (points : list Vec)
  : list R * result (Vec * Vec * R) :=
  match pca_numpy points with
  | inl e => ([], inl e)
  | inr (o, uvw, _) =>
    match local_coords_numpy o uvw points with
    | inl e => ([], inl e)
    | inr rst =>
      let x := map vx rst in
      let y := map vy rst in
      let xm := mean x in
      let ym := mean y in
      let c0 := (xm, ym) in
      match leastsq (circle_f x y) c0 with
      | inl e => ([], inl e)
      | inr (c, ier) =>
        let Ri := circle_dist x y (fst c) (snd c) in
        let R := mean Ri in
        let residu := sum_list (map (fun r => (r - R) ^ 2) Ri) in
        ([residu],
         match global_coords_numpy o uvw [mkVec (fst c) (snd c) 0] with
         | inl e => inl e
         | inr [] => inl IndexError
         | inr (xyz :: _) =>
           let o := xyz in
           let w := row2 uvw in
           inr (o, w, R)
         end)
      end
    end
  end.

End Bestfit.


(** ** Predicates used in the statements *)

(** The axes of a pair are not parallel (and hence neither is zero). *)
Definition non_degenerate (x y : Vec) : Prop :=
  cross_vectors x y <> zero_vector.

(** [|xaxis| = |yaxis| = 1] and [xaxis] orthogonal to [yaxis]. *)
Definition orthonormal (F : Frame) : Prop :=
  length_vector (_xaxis F) = 1 /\
  length_vector (_yaxis F) = 1 /\
  dot_vectors (_xaxis F) (_yaxis F) = 0.

(** The derived z-axis completes the axes to a right-handed orthonormal
    triad: it is a unit vector orthogonal to both, and the matrix of the
    three axes has determinant 1. *)
Definition right_handed (F : Frame) : Prop :=
  length_vector (zaxis F) = 1 /\
  dot_vectors (_xaxis F) (zaxis F) = 0 /\
  dot_vectors (_yaxis F) (zaxis F) = 0 /\
  det3 (mkMat3 (_xaxis F) (_yaxis F) (zaxis F)) = 1.


(** A rigid transformation: its rotation block is orthogonal with
    determinant 1. *)
Definition rigid (T : Matrix) : Prop :=
  mat_mul (transpose (lin T)) (lin T) = identity3 /\ det3 (lin T) = 1.

(** The centroid of a point set. *)
Definition centroid (points : list Vec) : Vec :=
  divide_vector (sum_vectors points) (INR (length points)).

(** The 3x3 centered covariance matrix of a point set. *)
Definition covariance (points : list Vec) : Mat3 :=
  mat_scale (1 / (INR (length points) - 1))
            (gram (map (fun p => subtract_vectors p (centroid points)) points)).

Definition diag (s : Vec) : Mat3 :=
  mkMat3 (mkVec (vx s) 0 0) (mkVec 0 (vy s) 0) (mkVec 0 0 (vz s)).

Definition orthogonal (M : Mat3) : Prop :=
  mat_mul (transpose M) M = identity3 /\ mat_mul M (transpose M) = identity3.

(** What [scipy.linalg.svd] promises of its result [(u, s, vT)] on [C]:
    [C = u diag(s) vT] with [u] and [vT] orthogonal and the singular
    values non-negative, in decreasing order. *)
Definition is_svd (C : Mat3) (u : Mat3) (s : Vec) (vT : Mat3) : Prop :=
  orthogonal u /\ orthogonal vT /\
  0 <= vz s /\ vz s <= vy s /\ vy s <= vx s /\
  C = mat_mul u (mat_mul (diag s) vT).

(** All points on one line. *)
Definition collinear (points : list Vec) : Prop :=
  exists a d : Vec, forall p, In p points ->
    exists t : R, p = add_vectors a (scale_vector d t).

(** The point [p] lies on the plane through [p0] with normal [n]. *)
Definition on_plane (p0 n p : Vec) : Prop :=
  dot_vectors n (subtract_vectors p p0) = 0.

(** All points on one plane. *)
Definition coplanar (points : list Vec) : Prop :=
  exists (n : Vec) (d : R), n <> zero_vector /\
    forall p, In p points -> dot_vectors n p = d.

(** The linearised sphere equation of a point:
    [2x xc + 2y yc + 2z zc + c = x^2 + y^2 + z^2]. *)
Definition sphere_row (p : Vec) : Row4 := mkRow4 (vx p * 2) (vy p * 2) (vz p * 2) 1.
Definition sphere_rhs (p : Vec) : R := vx p * vx p + vy p * vy p + vz p * vz p.

(** The sum of squared residuals of [A x = f]. *)
Definition residual (A : list Row4) (f : list R) (x : Row4) : R :=
  sum_list (map (fun ab => (dot4 (fst ab) x - snd ab) ^ 2) (combine A f)).

(** What [numpy.linalg.lstsq] promises of its solution. *)
Definition is_least_squares (A : list Row4) (f : list R) (x : Row4) : Prop :=
  forall y : Row4, residual A f x <= residual A f y.

(** The flags of [scipy.optimize.leastsq] that report a solution. *)
Definition converged (ier : Z) : bool := ((1 <=? ier) && (ier <=? 4))%Z.

(** ** Sample inputs *)

(** Three points of the plane [z = 0], not on a line. *)
Definition three_points : list Vec := [mkVec 1 0 0; mkVec (-1) 0 0; mkVec 0 1 0].

(** Four points of the unit sphere around the origin, not on a plane. *)
Definition four_points : list Vec :=
  [mkVec 1 0 0; mkVec (-1) 0 0; mkVec 0 1 0; mkVec 0 0 1].

(** A decomposition routine that answers with the decomposition of the
    covariance matrix of [three_points], and one for the two points
    (1, 0, 0) and (-1, 0, 0). *)
Definition svd_three_points (C : Mat3) : result (Mat3 * Vec * Mat3) :=
  ret (identity3, mkVec 1 (1 / 3) 0, identity3).

Definition two_points : list Vec := [mkVec 1 0 0; mkVec (-1) 0 0].

Definition svd_two_points (C : Mat3) : result (Mat3 * Vec * Mat3) :=
  ret (identity3, mkVec 2 0 0, identity3).

(** A solver that answers with the coefficients of the unit sphere. *)
Definition lstsq_unit_sphere (A : list Row4) (f : list R) : result Row4 :=
  ret (mkRow4 0 0 0 1).

(** Collaborators of the circle fit for a run in which the nonlinear solve
    does not converge: the points are taken in the world frame, and the
    solver gives back its starting point with the flag 5 (number of calls
    to the function exhausted). *)
Definition pca_world (points : list Vec) : result (Vec * Mat3 * Vec) :=
  ret (zero_vector, identity3, zero_vector).

Definition coords_world (o : Vec) (uvw : Mat3) (points : list Vec) : result (list Vec) :=
  ret points.

Definition leastsq_exhausted (f : R * R -> list R) (x0 : R * R) : result ((R * R) * Z) :=
  ret (x0, 5%Z).

(* ================================================================== *)
(** * Part I, continued: the other methods of [Frame] *)
(* ================================================================== *)

(** [Frame.__getitem__] *)
Definition getitem (key : Z) (self : Frame) : result Vec :=
  if (key =? 0)%Z then ret (_point self)
  else if (key =? 1)%Z then ret (_xaxis self)
  else if (key =? 2)%Z then ret (_yaxis self)
  else raise KeyError.

(** [Frame.__len__] and [Frame.__iter__] *)
Definition Frame_len (self : Frame) : nat := 3.

Definition Frame_iter (self : Frame) : list Vec :=
  [_point self; _xaxis self; _yaxis self].

(** Modelled from the spec: iteration over a [Point] or [Vector] (the
    classes are not part of the sources): its three coordinates, as in the
    data representation of section 6. *)
Definition coordinates (v : Vec) : list R := [vx v; vy v; vz v].

(** [Frame.__eq__]: the nested loops leave with [False] at the first pair
    of coordinates further apart than [tol], and with [True] when there is
    none. *)
Definition Frame_eq (self other : Frame) (tol : R) : bool :=
  forallb
    (fun v12 : Vec * Vec =>
       forallb (fun ab : R * R =>
                  if Rgt_dec (Rabs (fst ab - snd ab)) tol then false else true)
               (combine (coordinates (fst v12)) (coordinates (snd v12))))
    (combine (Frame_iter self) (Frame_iter other)).

(** [Frame.copy] *)
Definition copy (self : Frame) : result Frame :=
  Frame_init (_point self) (_xaxis self) (_yaxis self).

(** The object a constructor or a copying method hands back after it has
    run the method [m] on it: [frame.m(...); return frame]. *)
Definition returning {A : Type} (m : method A) (frame : Frame) : result Frame :=
  match m frame with
  | (inr _, frame') => ret frame'
  | (inl e, _) => raise e
  end.

(** [Frame.transformed] *)
Definition transformed (transformation : Matrix) (self : Frame) : result Frame :=
  (frame <- copy self ;;
   returning (transform transformation) frame)%result.

(** The data dictionary of a frame: the keys present and their values.
    A value, a list of three floats, is given as a [Vec]. *)
Definition dict : Set := list (String.string * Vec).

(** [data[key]] *)
Fixpoint dict_get (data : dict) (key : String.string) : result Vec :=
  match data with
  | [] => raise KeyError
  | (k, v) :: rest => if String.eqb k key then ret v else dict_get rest key
  end.

(** [Frame.data] (getter) and [Frame.to_data] *)
Definition data (self : Frame) : dict :=
  [("point"%string, _point self);
   ("xaxis"%string, _xaxis self);
   ("yaxis"%string, _yaxis self)].

Definition to_data (self : Frame) : dict := data self.

(** [Frame.data] (setter): each key is looked up just before its
    assignment. *)
Definition set_data (data : dict) : method unit :=
  (point <- (fun self => (dict_get data "point"%string, self)) ;;
   set_point point ;;
   xaxis <- (fun self => (dict_get data "xaxis"%string, self)) ;;
   set_xaxis xaxis ;;
   yaxis <- (fun self => (dict_get data "yaxis"%string, self)) ;;
   set_yaxis yaxis)%method.

(** [Frame.from_data] *)
Definition from_data (data : dict) : result Frame :=
  (frame <- worldXY ;;
   returning (set_data data) frame)%result.

(** [Frame.from_points] *)
Definition from_points (point point_xaxis point_xyplane : Point) : result Frame :=
  let xaxis := subtract_vectors point_xaxis point in
  let xyvec := subtract_vectors point_xyplane point in
  let yaxis := cross_vectors (cross_vectors xaxis xyvec) xaxis in
  Frame_init point xaxis yaxis.



(** The attributes of a [Plane] that [from_plane] reads. *)
Record Plane : Set := mkPlane { plane_point : Point; plane_normal : Vec }.

(** Python's [max] of a non-empty list of floats and [list.index]. *)
Definition list_max (l : list R) : R :=
  match l with
  | [] => 0
  | a :: rest => fold_left Rmax rest a
  end.

Fixpoint list_index (x : R) (l : list R) : result nat :=
  match l with
  | [] => raise ValueError
  | a :: rest =>
    if Req_dec_T a x then ret 0%nat
    else (i <- list_index x rest ;; ret (S i))%result
  end.

(** [coords[idx] = v] on a list (an index out of range raises in Python;
    [from_plane] only uses an index of [coeffs]). *)
Fixpoint list_set (l : list R) (idx : nat) (v : R) : list R :=
  match l, idx with
  | [], _ => []
  | _ :: rest, O => v :: rest
  | a :: rest, S i => a :: list_set rest i v
  end.

(** [Point( *coords)] for a list of three coordinates. *)
Definition point_of_list (coords : list R) : Point :=
  mkVec (nth 0 coords 0) (nth 1 coords 0) (nth 2 coords 0).

(** [Frame.from_plane] *)
Definition from_plane (plane : Plane) : result Frame :=
  (let d := dot_vectors (plane_point plane) (plane_normal plane) in
   let coeffs := coordinates (plane_normal plane) in
   let coeffs_abs := map Rabs coeffs in
   idx <- list_index (list_max coeffs_abs) coeffs_abs ;;
   let coords := [0; 0; 0] in
   v <- py_div d (nth idx coeffs 0) ;;
   let coords := list_set coords idx v in
   let pt1_in_plane := point_of_list coords in
   let coords := [1; 1; 1] in
   let coords := list_set coords idx 0 in
   v <- py_div (d - sum_list (map (fun ax => fst ax * snd ax) (combine coeffs coords)))
               (nth idx coeffs 0) ;;
   let coords := list_set coords idx v in
   let pt2_in_plane := point_of_list coords in
   let xaxis := subtract_vectors pt2_in_plane pt1_in_plane in
   let yaxis := cross_vectors (plane_normal plane) xaxis in
   Frame_init (plane_point plane) xaxis yaxis)%result.

(** [Frame.represent_frame_in_local_coordinates] *)
Definition represent_frame_in_local_coordinates (self frame : Frame) : result Frame :=
  (T <- inverse (matrix_from_frame self) ;;
   f <- copy frame ;;
   returning (transform T) f)%result.

(** [Frame.represent_frame_in_global_coordinates] *)
Definition represent_frame_in_global_coordinates (self frame : Frame) : result Frame :=
  (let T := matrix_from_frame self in
   f <- copy frame ;;
   returning (transform T) f)%result.

(** The unit vector of a direction. *)
Definition normalized (v : Vec) : Vec := scale_vector v (/ length_vector v).

(** Two numbers, and the coordinates of two vectors, within [tol] of each
    other. *)
Definition within (tol a b : R) : Prop := Rabs (a - b) <= tol.

Definition vec_within (tol : R) (u v : Vec) : Prop :=
  within tol (vx u) (vx v) /\ within tol (vy u) (vy v) /\ within tol (vz u) (vz v).

(** The residual of the linearised sphere equation of [p] at the
    coefficients [C], and the midpoint of two coefficient vectors. *)
Definition sphere_residual (C : Row4) (p : Vec) : R :=
  dot4 (sphere_row p) C - sphere_rhs p.

Definition row4_mid (x y : Row4) : Row4 :=
  mkRow4 ((c0 x + c0 y) / 2) ((c1 x + c1 y) / 2) ((c2 x + c2 y) / 2) ((c3 x + c3 y) / 2).

(* ================================================================== *)
(** * Part I, continued: [compas_rhino.helpers.selectors.FaceSelector] *)
(* ================================================================== *)

(** Python's [str.split(sep)] for a separator of one character. *)
Fixpoint split (sep : ascii) (s : string) : list string :=
  match s with
  | EmptyString => [EmptyString]
  | String c s' =>
    match split sep s' with
    | [] => [String c EmptyString]
    | h :: t =>
      if Ascii.eqb c sep then EmptyString :: h :: t else String c h :: t
    end
  end.

(** [x in name] for a list of strings. *)
Definition contains (x : string) (name : list string) : bool :=
  existsb (String.eqb x) name.

(** [set.add(key)]: the set with the key, and the value [None] the call
    returns, which is false in a condition. *)
Definition set_add (key : string) (seen : list string) : unit * list string :=
  (tt, key :: seen).

Definition truth_of_None (none : unit) : bool := false.

Section FaceSelector.

(** The host: object identifiers, [rs.ObjectName], and the values
    [ast.literal_eval] gives, or its exception. *)
Variable guid : Type.
Variable value : Type.
Variable ObjectName : guid -> string.
Variable literal_eval : string -> result value.

(** The attribute [self.attributes['name']]. *)
Variable prefix : string.

(** The conditions ['face' in name] and [not prefix or prefix in name]. *)
Definition is_face (name : list string) : bool :=
  contains "face"%string name &&
  ((if String.eqb prefix EmptyString then true else false) || contains prefix name).


(** The loop of [FaceSelector.select_faces] over the remaining objects,
    with the set [seen] and the list [keys] built so far. *)
Fixpoint select_faces_loop (guids : list guid) (seen : list string) (keys : list value)
  : result (list value) :=
  match guids with
  | [] => ret keys
  | guid :: rest =>
    let name := split "."%char (ObjectName guid) in
    if contains "face"%string name then
      if (if String.eqb prefix EmptyString then true else false) || contains prefix name then
        let key := last name EmptyString in
        let '(none, seen) := set_add key seen in
        if negb (truth_of_None none) then
          (key <- literal_eval key ;;
           select_faces_loop rest seen (keys ++ [key]))%result
        else select_faces_loop rest seen keys
      else select_faces_loop rest seen keys
    else select_faces_loop rest seen keys
  end.

(** [FaceSelector.select_faces], given what [rs.GetObjects] returned
    ([None] or a list). *)
Definition select_faces (selected : option (list guid)) : result (list value) :=
  let keys := [] in
  match selected with
  | Some (g :: guids) => select_faces_loop (g :: guids) [] keys
  | _ => ret keys
  end.

(** The key of an object: the last component of its name. *)
Definition face_key (g : guid) : string :=
  last (split "."%char (ObjectName g)) EmptyString.

(** Evaluation of a list of keys, one after the other. *)
Fixpoint eval_keys (keys : list string) : result (list value) :=
  match keys with
  | [] => ret []
  | k :: rest =>
    (v <- literal_eval k ;;
     vs <- eval_keys rest ;;
     ret (v :: vs))%result
  end.

End FaceSelector.
(* ================================================================== *)
(** * Part II: properties *)
(* ================================================================== *)

(** ** Vector algebra *)

Lemma Vec_eq (a b c a' b' c' : R) :
  a = a' -> b = b' -> c = c' -> mkVec a b c = mkVec a' b' c'.
Proof. intros -> -> ->. reflexivity. Qed.

Lemma Vec_eta (v : Vec) : v = mkVec (vx v) (vy v) (vz v).
Proof. destruct v; reflexivity. Qed.

Ltac vec_unfold :=
  unfold zaxis, normal, transform_point, mat_mul, from_columns, transpose,
    col0, col1, col2, mat_vec, mat_scale, det3, add_vectors, subtract_vectors,
    scale_vector, cross_vectors, dot_vectors, zero_vector in *;
  cbn [vx vy vz row0 row1 row2 lin translation _point _xaxis _yaxis] in *.

(** Full evaluation of the vector operations, for goals whose vectors and
    matrices are all given by components. *)
Ltac vec_cbv :=
  cbv beta iota zeta delta
    [zaxis normal transform_point mat_mul from_columns transpose col0 col1 col2
     mat_vec mat_scale det3 add_vectors subtract_vectors scale_vector
     cross_vectors dot_vectors zero_vector identity3 multiply_matrices
     matrix_from_frame basis_vectors
     vx vy vz row0 row1 row2 lin translation _point _xaxis _yaxis] in *.

Ltac vec_destruct :=
  repeat match goal with
         | v : Vec |- _ => destruct v
         | v : Point |- _ => destruct v
         end.

Lemma dot_self_nonneg (v : Vec) : 0 <= dot_vectors v v.
Proof. destruct v; vec_unfold; nra. Qed.

Lemma dot_self_zero (v : Vec) : dot_vectors v v = 0 -> v = zero_vector.
Proof.
  destruct v as [a b c]; vec_unfold; intros H.
  apply Vec_eq; nra.
Qed.

Lemma dot_comm (u v : Vec) : dot_vectors u v = dot_vectors v u.
Proof. vec_destruct; vec_unfold; ring. Qed.

Lemma length_nonneg (v : Vec) : 0 <= length_vector v.
Proof. apply sqrt_pos. Qed.

Lemma length_sqr (v : Vec) : length_vector v * length_vector v = dot_vectors v v.
Proof. apply sqrt_sqrt, dot_self_nonneg. Qed.

Lemma length_zero (v : Vec) : length_vector v = 0 -> v = zero_vector.
Proof.
  intros H. apply dot_self_zero. rewrite <- length_sqr, H. ring.
Qed.

Lemma length_one (v : Vec) : dot_vectors v v = 1 -> length_vector v = 1.
Proof. intros H. unfold length_vector. rewrite H. apply sqrt_1. Qed.

Lemma length_one_dot (v : Vec) : length_vector v = 1 -> dot_vectors v v = 1.
Proof. intros H. rewrite <- length_sqr, H. ring. Qed.

Lemma length_pos (v : Vec) : v <> zero_vector -> 0 < length_vector v.
Proof.
  intros H. destruct (length_nonneg v) as [Hl | Hl]; [exact Hl |].
  exfalso. apply H, length_zero. symmetry; exact Hl.
Qed.

Lemma cross_orth_l (u v : Vec) : dot_vectors (cross_vectors u v) u = 0.
Proof. vec_destruct; vec_unfold; ring. Qed.

Lemma cross_orth_r (u v : Vec) : dot_vectors (cross_vectors u v) v = 0.
Proof. vec_destruct; vec_unfold; ring. Qed.

(** Lagrange's identity. *)
Lemma cross_dot_self (u v : Vec) :
  dot_vectors (cross_vectors u v) (cross_vectors u v) =
  dot_vectors u u * dot_vectors v v - dot_vectors u v * dot_vectors u v.
Proof. vec_destruct; vec_unfold; ring. Qed.

(** The vector triple product [(u x v) x u]. *)
Lemma cross_cross_l (u v : Vec) :
  cross_vectors (cross_vectors u v) u =
  subtract_vectors (scale_vector v (dot_vectors u u)) (scale_vector u (dot_vectors u v)).
Proof. vec_destruct; vec_unfold; apply Vec_eq; ring. Qed.

Lemma cross_scale_l (u v : Vec) (k : R) :
  cross_vectors (scale_vector u k) v = scale_vector (cross_vectors u v) k.
Proof. vec_destruct; vec_unfold; apply Vec_eq; ring. Qed.

Lemma cross_scale_r (u v : Vec) (k : R) :
  cross_vectors u (scale_vector v k) = scale_vector (cross_vectors u v) k.
Proof. vec_destruct; vec_unfold; apply Vec_eq; ring. Qed.

Lemma scale_zero_inv (v : Vec) (k : R) :
  k <> 0 -> scale_vector v k = zero_vector -> v = zero_vector.
Proof.
  destruct v as [a b c]; vec_unfold; intros Hk H.
  injection H as Ha Hb Hc.
  apply Vec_eq; [ apply Rmult_integral in Ha | apply Rmult_integral in Hb
                | apply Rmult_integral in Hc ]; tauto.
Qed.

(** ** Normalisation *)

Lemma unitize_zero : unitize zero_vector = inl DegenerateInputError.
Proof.
  unfold unitize. destruct (Req_dec_T (length_vector zero_vector) 0) as [_ | H].
  - reflexivity.
  - exfalso. apply H. unfold length_vector, zero_vector, dot_vectors; cbn.
    replace (0 * 0 + 0 * 0 + 0 * 0) with 0 by ring. apply sqrt_0.
Qed.

Lemma unitize_scale (v : Vec) :
  v <> zero_vector -> unitize v = inr (scale_vector v (/ length_vector v)).
Proof.
  intros Hv. unfold unitize.
  destruct (Req_dec_T (length_vector v) 0) as [H | H].
  - exfalso. apply Hv, length_zero, H.
  - reflexivity.
Qed.

Lemma unitize_inv (v u : Vec) :
  unitize v = inr u ->
  v <> zero_vector /\ u = scale_vector v (/ length_vector v).
Proof.
  unfold unitize. destruct (Req_dec_T (length_vector v) 0) as [H | H].
  - discriminate.
  - intros E. injection E as <-. split; [| reflexivity].
    intros ->. apply H.
    unfold length_vector, zero_vector, dot_vectors; cbn.
    replace (0 * 0 + 0 * 0 + 0 * 0) with 0 by ring. apply sqrt_0.
Qed.

Lemma dot_scale_l (u v : Vec) (k : R) :
  dot_vectors (scale_vector u k) v = k * dot_vectors u v.
Proof. vec_destruct; vec_unfold; ring. Qed.

Lemma dot_scale_r (u v : Vec) (k : R) :
  dot_vectors u (scale_vector v k) = k * dot_vectors u v.
Proof. vec_destruct; vec_unfold; ring. Qed.

Lemma scale_dot_self (v : Vec) (k : R) :
  dot_vectors (scale_vector v k) (scale_vector v k) = k * k * dot_vectors v v.
Proof. destruct v; vec_unfold; ring. Qed.

Lemma length_unitized (v : Vec) :
  v <> zero_vector -> length_vector (scale_vector v (/ length_vector v)) = 1.
Proof.
  intros Hv. apply length_one. rewrite scale_dot_self, <- length_sqr.
  pose proof (length_pos v Hv). field. lra.
Qed.

Lemma unitize_length (v u : Vec) : unitize v = inr u -> length_vector u = 1.
Proof.
  intros H. apply unitize_inv in H as [Hv ->]. apply length_unitized, Hv.
Qed.

(** A unit vector is stored as it is. *)
Lemma unitize_unit (v : Vec) : length_vector v = 1 -> unitize v = inr v.
Proof.
  intros H. unfold unitize. rewrite H.
  destruct (Req_dec_T 1 0) as [E | _]; [lra |].
  unfold ret. f_equal. destruct v as [a b c]; cbn. apply Vec_eq; field.
Qed.

(** ** The axis setters *)

Lemma non_degenerate_r (x y : Vec) : non_degenerate x y -> y <> zero_vector.
Proof.
  intros H ->. apply H. destruct x; vec_unfold. apply Vec_eq; ring.
Qed.

Lemma non_degenerate_l (x y : Vec) : non_degenerate x y -> x <> zero_vector.
Proof.
  intros H ->. apply H. destruct y; vec_unfold. apply Vec_eq; ring.
Qed.

Lemma non_degenerate_scale_r (x y : Vec) (k : R) :
  k <> 0 -> non_degenerate x y -> non_degenerate x (scale_vector y k).
Proof.
  unfold non_degenerate. intros Hk H E. rewrite cross_scale_r in E.
  apply H. eapply scale_zero_inv; eassumption.
Qed.

Lemma non_degenerate_scale_l (x y : Vec) (k : R) :
  k <> 0 -> non_degenerate x y -> non_degenerate (scale_vector x k) y.
Proof.
  unfold non_degenerate. intros Hk H E. rewrite cross_scale_l in E.
  apply H. eapply scale_zero_inv; eassumption.
Qed.

Lemma inv_length_neq_0 (v : Vec) : v <> zero_vector -> / length_vector v <> 0.
Proof.
  intros H. apply Rinv_neq_0_compat. pose proof (length_pos v H). lra.
Qed.

(** What the y-axis setter stores is a unit vector orthogonal to the
    stored x-axis, provided the latter is a unit vector. *)
Lemma yaxis_value_inv (x v y : Vec) :
  length_vector x = 1 -> yaxis_value x v = inr y ->
  length_vector y = 1 /\ dot_vectors x y = 0.
Proof.
  intros Hx. unfold yaxis_value, bind.
  destruct (unitize v) as [e | y0] eqn:Ey0; [discriminate |].
  destruct (unitize (cross_vectors x y0)) as [e | z] eqn:Ez; [discriminate |].
  intros E. injection E as <-.
  pose proof (unitize_length _ _ Ez) as Hz.
  apply unitize_inv in Ez as [_ Ez].
  assert (Hzx : dot_vectors z x = 0).
  { rewrite Ez, dot_scale_l, cross_orth_l. ring. }
  split.
  - apply length_one. rewrite cross_dot_self.
    rewrite (length_one_dot _ Hz), (length_one_dot _ Hx), Hzx. ring.
  - rewrite dot_comm. apply cross_orth_r.
Qed.

Lemma yaxis_value_ok (x v : Vec) :
  non_degenerate x v -> exists y, yaxis_value x v = inr y.
Proof.
  intros H. unfold yaxis_value, bind.
  rewrite (unitize_scale v (non_degenerate_r _ _ H)).
  rewrite unitize_scale; [eexists; reflexivity |].
  apply non_degenerate_scale_r; [| exact H].
  apply inv_length_neq_0, (non_degenerate_r _ _ H).
Qed.

Lemma xaxis_value_inv (v x : Vec) :
  xaxis_value v = inr x -> length_vector x = 1.
Proof.
  unfold xaxis_value, bind. destruct (unitize v) eqn:E; [discriminate |].
  intros H; injection H as <-. eapply unitize_length; eassumption.
Qed.

Lemma xaxis_value_ok (v : Vec) :
  v <> zero_vector -> xaxis_value v = inr (scale_vector v (/ length_vector v)).
Proof.
  intros H. unfold xaxis_value, bind. rewrite (unitize_scale v H). reflexivity.
Qed.

(** An orthonormal pair of axes always gives a right-handed triad, the
    z-axis being derived. *)
Lemma orthonormal_right_handed (F : Frame) : orthonormal F -> right_handed F.
Proof.
  intros (Hx & Hy & Hxy).
  apply length_one_dot in Hx, Hy.
  assert (Hz : dot_vectors (zaxis F) (zaxis F) = 1).
  { unfold zaxis, normal. rewrite cross_dot_self, Hx, Hy, Hxy. ring. }
  repeat split.
  - apply length_one, Hz.
  - rewrite dot_comm. apply cross_orth_l.
  - rewrite dot_comm. apply cross_orth_r.
  - unfold det3; cbn [row0 row1 row2].
    destruct F as [p [a b c] [d e f]]; vec_unfold. nra.
Qed.




(** The constructor stores the point, the value of the x-axis setter
    and, from it, the value of the y-axis setter. *)
Lemma Frame_init_unfold (p x y : Vec) :
  Frame_init p x y =
  (x' <- xaxis_value x ;;
   y' <- yaxis_value x' y ;;
   ret (mkFrame p x' y'))%result.
Proof.
  unfold Frame_init, m_bind, set_point, set_xaxis, set_yaxis, bind, ret.
  cbn [_point _xaxis _yaxis].
  destruct (xaxis_value x) as [e | x']; [reflexivity |].
  cbn [_point _xaxis _yaxis].
  destruct (yaxis_value x' y) as [e | y']; reflexivity.
Qed.

Lemma Frame_init_inv (p x y : Vec) (F : Frame) :
  Frame_init p x y = inr F -> orthonormal F /\ _point F = p.
Proof.
  rewrite Frame_init_unfold. unfold bind.
  destruct (xaxis_value x) as [e | x'] eqn:Ex; [discriminate |].
  destruct (yaxis_value x' y) as [e | y'] eqn:Ey; [discriminate |].
  intros H; injection H as <-.
  pose proof (xaxis_value_inv _ _ Ex) as Hx.
  destruct (yaxis_value_inv _ _ _ Hx Ey) as [Hy Hxy].
  repeat split; assumption.
Qed.

Lemma Frame_init_ok (p x y : Vec) :
  non_degenerate x y -> exists F, Frame_init p x y = inr F.
Proof.
  intros H. rewrite Frame_init_unfold. unfold bind.
  rewrite (xaxis_value_ok x (non_degenerate_l _ _ H)).
  destruct (yaxis_value_ok (scale_vector x (/ length_vector x)) y) as [y' ->].
  - apply non_degenerate_scale_l; [| exact H].
    apply inv_length_neq_0, (non_degenerate_l _ _ H).
  - eexists; reflexivity.
Qed.

(** ** [transform] *)

Lemma transform_basis (T : Matrix) (F : Frame) :
  basis_vectors (multiply_matrices T (matrix_from_frame F)) =
  (mat_vec (lin T) (_xaxis F), mat_vec (lin T) (_yaxis F)).
Proof.
  destruct F as [p [a b c] [d e f]], T as [[[? ? ?] [? ? ?] [? ? ?]] t].
  vec_cbv. reflexivity.
Qed.

Lemma transform_unfold (T : Matrix) (F : Frame) :
  transform T F =
  (set_point (translation (multiply_matrices T (matrix_from_frame F))) ;;
   set_xaxis (mat_vec (lin T) (_xaxis F)) ;;
   set_yaxis (mat_vec (lin T) (_yaxis F)))%method F.
Proof. unfold transform. rewrite transform_basis. reflexivity. Qed.



Lemma mat_vec_identity (v : Vec) : mat_vec identity3 v = v.
Proof. destruct v; unfold identity3; vec_unfold. apply Vec_eq; ring. Qed.

Lemma dot_mat_vec (A : Mat3) (u v : Vec) :
  dot_vectors (mat_vec A u) (mat_vec A v) =
  dot_vectors u (mat_vec (mat_mul (transpose A) A) v).
Proof.
  destruct A as [[? ? ?] [? ? ?] [? ? ?]], u, v. vec_cbv. ring.
Qed.

(** A rigid transformation preserves scalar products. *)
Lemma rigid_dot (T : Matrix) (u v : Vec) :
  rigid T ->
  dot_vectors (mat_vec (lin T) u) (mat_vec (lin T) v) = dot_vectors u v.
Proof.
  intros [H _]. rewrite dot_mat_vec, H, mat_vec_identity. reflexivity.
Qed.

Lemma dot_self_nonzero (v : Vec) : dot_vectors v v <> 0 -> v <> zero_vector.
Proof. intros H ->. apply H. vec_unfold. ring. Qed.



(** ** Claims about [Frame] *)

(** C7.  For unit, mutually orthogonal vectors [x], [y], [z] with
    [z = x * y] (cross product) and any origin [o], the constructor
    [Frame(o, x, y)] returns the frame that stores [o], [x] and [y]
    themselves, and the derived z-axis of this frame is [z].  (Over the
    reals the three equalities are exact.) *)
Theorem Frame_init_reproduces_triple (o x y z : Vec) :
  length_vector x = 1 -> length_vector y = 1 -> length_vector z = 1 ->
  dot_vectors x y = 0 -> dot_vectors y z = 0 -> dot_vectors z x = 0 ->
  z = cross_vectors x y ->
  Frame_init o x y = inr (mkFrame o x y) /\
  _xaxis (mkFrame o x y) = x /\
  _yaxis (mkFrame o x y) = y /\
  zaxis (mkFrame o x y) = z.
Proof.
  intros Hx Hy Hz Hxy _ _ Ez. subst z.
  split; [| repeat split].
  rewrite Frame_init_unfold. unfold xaxis_value, yaxis_value, bind, ret.
  rewrite (unitize_unit x Hx). cbn iota beta.
  rewrite (unitize_unit y Hy). cbn iota beta.
  rewrite (unitize_unit _ Hz). cbn iota beta.
  do 2 f_equal.
  rewrite cross_cross_l, (length_one_dot _ Hx), Hxy.
  destruct x, y; vec_unfold. apply Vec_eq; ring.
Qed.

Lemma Frame_init_reproduces_triple_witness :
  Frame_init (mkVec 3 4 5) (mkVec 1 0 0) (mkVec 0 1 0) =
    inr (mkFrame (mkVec 3 4 5) (mkVec 1 0 0) (mkVec 0 1 0)) /\
  _xaxis (mkFrame (mkVec 3 4 5) (mkVec 1 0 0) (mkVec 0 1 0)) = mkVec 1 0 0 /\
  _yaxis (mkFrame (mkVec 3 4 5) (mkVec 1 0 0) (mkVec 0 1 0)) = mkVec 0 1 0 /\
  zaxis (mkFrame (mkVec 3 4 5) (mkVec 1 0 0) (mkVec 0 1 0)) = mkVec 0 0 1.
Proof.
  apply (Frame_init_reproduces_triple (mkVec 3 4 5) (mkVec 1 0 0) (mkVec 0 1 0)
           (mkVec 0 0 1)).
  - apply length_one; vec_unfold; ring.
  - apply length_one; vec_unfold; ring.
  - apply length_one; vec_unfold; ring.
  - vec_unfold; ring.
  - vec_unfold; ring.
  - vec_unfold; ring.
  - vec_unfold; apply Vec_eq; ring.
Defined.

Lemma worldXY_returns : worldXY = inr world_xy.
Proof.
  unfold worldXY. rewrite Frame_init_unfold.
  unfold xaxis_value, yaxis_value, bind, ret.
  rewrite unitize_unit by (apply length_one; vec_cbv; ring). cbn iota beta.
  rewrite unitize_unit by (apply length_one; vec_cbv; ring). cbn iota beta.
  rewrite unitize_unit by (apply length_one; vec_cbv; ring). cbn iota beta.
  unfold world_xy. do 2 f_equal. vec_cbv. apply Vec_eq; ring.
Qed.

(** The length of (3, 4, 0) is 5. *)
Lemma length_3_4_0 : length_vector (mkVec 3 4 0) = 5.
Proof.
  unfold length_vector, dot_vectors. cbn [vx vy vz].
  replace (3 * 3 + 4 * 4 + 0 * 0) with (5 * 5) by ring.
  apply sqrt_square. lra.
Qed.

(** [F.xaxis = [3, 4, 0]] on the world XY frame stores the unit vector
    (3/5, 4/5, 0) and keeps the y-axis (0, 1, 0). *)
Lemma set_xaxis_3_4_0 :
  set_xaxis (mkVec 3 4 0) world_xy =
    (inr tt, mkFrame (mkVec 0 0 0) (mkVec (3 / 5) (4 / 5) 0) (mkVec 0 1 0)).
Proof.
  unfold set_xaxis, xaxis_value, bind, ret.
  rewrite unitize_scale.
  - rewrite length_3_4_0. unfold world_xy. cbn [_point _yaxis].
    do 2 f_equal. vec_cbv. apply Vec_eq; lra.
  - intros H. apply (f_equal vx) in H. cbn [vx zero_vector] in H. lra.
Qed.







(** C8, as stated, fails: a list of wrong length raises [ValueError], the
    exception the docstring of [from_list] announces, and not the
    [InvalidRepresentationError] of the specification. *)
Lemma from_list_raises_ValueError :
  from_list (fun _ => ret world_xy) [] = raise ValueError /\
  from_list (fun _ => ret world_xy) [] <> raise InvalidRepresentationError.
Proof. split; [reflexivity | discriminate]. Qed.

(** C8 (amended).  For a list whose length is neither 12 nor 16,
    [Frame.from_list] raises [ValueError].  A list of length 16 passes the
    length check and the result is that of [from_matrix] on its 4x4
    row-major matrix; a list of length 12 is first extended by
    [0, 0, 0, 1]. *)
Theorem from_list_length_check
  (from_matrix : list (list R) -> result Frame) (values : list R) :
  (length values <> 12%nat -> length values <> 16%nat ->
   from_list from_matrix values = raise ValueError) /\
  (length values = 16%nat ->
   from_list from_matrix values = from_matrix (rows_4x4 values)) /\
  (length values = 12%nat ->
   from_list from_matrix values = from_matrix (rows_4x4 (values ++ [0; 0; 0; 1]))).
Proof.
  unfold from_list. repeat split.
  - intros H12 H16.
    destruct (Nat.eqb_spec (length values) 12); [contradiction |].
    destruct (Nat.eqb_spec (length values) 16); [contradiction |].
    reflexivity.
  - intros H. rewrite H. cbn [Nat.eqb]. rewrite H. reflexivity.
  - intros H. rewrite H. cbn [Nat.eqb]. rewrite length_app, H. reflexivity.
Qed.

Lemma from_list_length_check_witness :
  from_list (fun _ => ret world_xy) [1; 2; 3] = raise ValueError.
Proof.
  apply (proj1 (from_list_length_check (fun _ => ret world_xy) [1; 2; 3]));
    cbn [length]; lia.
Defined.

(** ** Local and global coordinates *)

(** [inverse] returns a right inverse of the affine map. *)
Lemma inverse_apply (T Ti : Matrix) (p : Point) :
  inverse T = inr Ti -> transform_point T (transform_point Ti p) = p.
Proof.
  unfold inverse. destruct (Req_dec_T (det3 (lin T)) 0) as [E | Hd]; [discriminate |].
  intros H. injection H as <-.
  assert (Hk : det3 (lin T) * / det3 (lin T) = 1) by (apply Rinv_r, Hd).
  revert Hk. generalize (/ det3 (lin T)). intros k Hk. clear Hd.
  destruct T as [[[a b c] [d e f] [g h i]] [tx ty tz]], p as [px py pz].
  vec_cbv.
  match type of Hk with
  | ?D * k = 1 =>
    apply Vec_eq;
    [ transitivity (D * k * (px - tx) + tx)
    | transitivity (D * k * (py - ty) + ty)
    | transitivity (D * k * (pz - tz) + tz) ];
    try ring; rewrite Hk; ring
  end.
Qed.

(** On an orthonormal pair the Gram-Schmidt step changes nothing: the
    matrix built from the basis vectors is the rotation block of the
    frame's own matrix. *)
Lemma matrix_from_basis_vectors_orthonormal (F : Frame) :
  orthonormal F ->
  matrix_from_basis_vectors (_xaxis F) (_yaxis F) =
  inr (mkMatrix (lin (matrix_from_frame F)) zero_vector).
Proof.
  intros (Hx & Hy & Hxy).
  assert (Hz : length_vector (cross_vectors (_xaxis F) (_yaxis F)) = 1).
  { apply length_one. rewrite cross_dot_self.
    rewrite (length_one_dot _ Hx), (length_one_dot _ Hy), Hxy. ring. }
  unfold matrix_from_basis_vectors, bind, ret.
  rewrite (unitize_unit _ Hx). cbn iota beta.
  rewrite (unitize_unit _ Hy). cbn iota beta.
  rewrite (unitize_unit _ Hz). cbn iota beta.
  unfold matrix_from_frame, zaxis, normal. cbn [lin].
  do 3 f_equal.
  rewrite cross_cross_l, (length_one_dot _ Hx), Hxy.
  destruct (_xaxis F), (_yaxis F); vec_unfold. apply Vec_eq; ring.
Qed.

Lemma det_frame_matrix (F : Frame) :
  orthonormal F -> det3 (lin (matrix_from_frame F)) = 1.
Proof.
  intros H. destruct (orthonormal_right_handed F H) as (_ & _ & _ & Hd).
  rewrite <- Hd. unfold matrix_from_frame, zaxis, normal. cbn [lin].
  destruct (_xaxis F), (_yaxis F); vec_unfold. ring.
Qed.

(** C2, as stated, fails for a frame whose axes an assignment has left
    not orthogonal: after [F = Frame.worldXY(); F.xaxis = [3, 4, 0]] the
    frame has the axes (3/5, 4/5, 0) and (0, 1, 0); the local coordinates
    of the point (1, 0, 0) are (3/5, -4/5, 0), taken in the orthonormalised
    basis, and the global point of these is (9/25, -8/25, 0), taken along
    the stored axes. *)
Lemma xaxis_setter_breaks_round_trip :
  worldXY = inr world_xy /\
  set_xaxis (mkVec 3 4 0) world_xy =
    (inr tt, mkFrame (mkVec 0 0 0) (mkVec (3 / 5) (4 / 5) 0) (mkVec 0 1 0)) /\
  represent_point_in_local_coordinates
    (mkFrame (mkVec 0 0 0) (mkVec (3 / 5) (4 / 5) 0) (mkVec 0 1 0)) (mkVec 1 0 0)
    = inr (mkVec (3 / 5) (- 4 / 5) 0) /\
  represent_point_in_global_coordinates
    (mkFrame (mkVec 0 0 0) (mkVec (3 / 5) (4 / 5) 0) (mkVec 0 1 0))
    (mkVec (3 / 5) (- 4 / 5) 0)
    = mkVec (9 / 25) (- 8 / 25) 0 /\
  mkVec (9 / 25) (- 8 / 25) 0 <> mkVec 1 0 0.
Proof.
  split; [exact worldXY_returns |].
  split; [exact set_xaxis_3_4_0 |].
  split; [| split].
  - unfold represent_point_in_local_coordinates, matrix_from_basis_vectors, bind, ret.
    cbn [_point _xaxis _yaxis].
    rewrite (unitize_unit (mkVec (3 / 5) (4 / 5) 0))
      by (apply length_one; vec_cbv; field).
    cbn iota beta.
    rewrite (unitize_unit (mkVec 0 1 0)) by (apply length_one; vec_cbv; ring).
    cbn iota beta.
    replace (cross_vectors (mkVec (3 / 5) (4 / 5) 0) (mkVec 0 1 0))
      with (mkVec 0 0 (3 / 5)) by (vec_cbv; apply Vec_eq; lra).
    assert (L : length_vector (mkVec 0 0 (3 / 5)) = 3 / 5).
    { unfold length_vector, dot_vectors. cbn [vx vy vz].
      replace (0 * 0 + 0 * 0 + 3 / 5 * (3 / 5)) with (3 / 5 * (3 / 5)) by ring.
      apply sqrt_square. lra. }
    rewrite unitize_scale.
    2:{ intros H. apply (f_equal vz) in H. cbn [vz zero_vector] in H. lra. }
    rewrite L. cbn iota beta.
    replace (scale_vector (mkVec 0 0 (3 / 5)) (/ (3 / 5))) with (mkVec 0 0 1)
      by (vec_cbv; apply Vec_eq; field).
    replace (cross_vectors (mkVec 0 0 1) (mkVec (3 / 5) (4 / 5) 0))
      with (mkVec (- 4 / 5) (3 / 5) 0) by (vec_cbv; apply Vec_eq; lra).
    unfold inverse.
    assert (D : det3 (lin (mkMatrix
                  (from_columns (mkVec (3 / 5) (4 / 5) 0) (mkVec (- 4 / 5) (3 / 5) 0)
                     (mkVec 0 0 1)) zero_vector)) = 1).
    { vec_cbv. field. }
    rewrite D. destruct (Req_dec_T 1 0) as [E | _]; [lra |].
    unfold ret. cbn iota beta. f_equal. vec_cbv. apply Vec_eq; field.
  - unfold represent_point_in_global_coordinates. vec_cbv. apply Vec_eq; field.
  - intros H. apply (f_equal vx) in H. cbn [vx] in H. lra.
Qed.

(** C2 (amended).  For every frame [F] whose stored axes are orthonormal
    and every point [p], the conversion of [p] to the local coordinates of
    [F] returns a point, and converting that point back to global
    coordinates gives [p]. *)
Theorem local_global_round_trip (F : Frame) (p : Point) :
  orthonormal F ->
  exists q : Point,
    represent_point_in_local_coordinates F p = inr q /\
    represent_point_in_global_coordinates F q = p.
Proof.
  intros HF. unfold represent_point_in_local_coordinates, bind.
  rewrite (matrix_from_basis_vectors_orthonormal F HF).
  set (R := mkMatrix (lin (matrix_from_frame F)) zero_vector).
  destruct (inverse R) as [e | T] eqn:ET.
  - exfalso. unfold inverse in ET.
    destruct (Req_dec_T (det3 (lin R)) 0) as [E | _]; [| discriminate].
    unfold R in E. cbn [lin] in E. rewrite (det_frame_matrix F HF) in E. lra.
  - eexists. split; [reflexivity |].
    pose proof (inverse_apply R T (subtract_vectors p (_point F)) ET) as H.
    unfold represent_point_in_global_coordinates.
    revert H. generalize (transform_point T (subtract_vectors p (_point F))).
    intros q H. unfold R in H. unfold transform_point in *.
    cbn [lin translation] in H.
    change (translation (matrix_from_frame F)) with (_point F).
    revert H. generalize (mat_vec (lin (matrix_from_frame F)) q). intros r H.
    destruct r, p, (_point F); vec_unfold.
    injection H as H1 H2 H3. apply Vec_eq; lra.
Qed.

Lemma local_global_round_trip_witness :
  exists q : Point,
    represent_point_in_local_coordinates
      (mkFrame (mkVec 1 1 1) (mkVec 0 1 0) (mkVec 0 0 1)) (mkVec 2 3 5) = inr q /\
    represent_point_in_global_coordinates
      (mkFrame (mkVec 1 1 1) (mkVec 0 1 0) (mkVec 0 0 1)) q = mkVec 2 3 5.
Proof.
  apply local_global_round_trip.
  repeat split; cbn [_xaxis _yaxis].
  - apply length_one; vec_unfold; ring.
  - apply length_one; vec_unfold; ring.
  - vec_unfold; ring.
Defined.

(** ** Sums over arrays *)

Lemma INR_length_pos {A : Type} (l : list A) : (1 <= length l)%nat -> 0 < INR (length l).
Proof. intros H. apply lt_0_INR. lia. Qed.



Lemma sum_list_cons (a : R) (l : list R) : sum_list (a :: l) = a + sum_list l.
Proof. reflexivity. Qed.

Lemma sum_vectors_cons (p : Vec) (l : list Vec) :
  sum_vectors (p :: l) = add_vectors p (sum_vectors l).
Proof. reflexivity. Qed.

Lemma gram_cons (y : Vec) (Y : list Vec) :
  gram (y :: Y) = mat_add (outer y y) (gram Y).
Proof. reflexivity. Qed.

Lemma dot_sum_vectors (n : Vec) (l : list Vec) :
  dot_vectors n (sum_vectors l) = sum_list (map (dot_vectors n) l).
Proof.
  induction l as [| p l IH].
  - destruct n; cbn; vec_unfold; ring.
  - cbn [map]. rewrite sum_vectors_cons, sum_list_cons, <- IH.
    destruct n, p, (sum_vectors l). vec_unfold; ring.
Qed.

Lemma sum_list_zero (l : list R) : (forall r, In r l -> r = 0) -> sum_list l = 0.
Proof.
  induction l as [| r l IH]; intros H; [reflexivity |].
  rewrite sum_list_cons, (H r), IH.
  - ring.
  - intros; apply H; cbn [In]; auto.
  - cbn [In]; auto.
Qed.

Lemma sum_list_nonneg (l : list R) : (forall r, In r l -> 0 <= r) -> 0 <= sum_list l.
Proof.
  induction l as [| r l IH]; intros H; [cbn; lra |].
  rewrite sum_list_cons.
  assert (0 <= r) by (apply H; cbn [In]; auto).
  assert (0 <= sum_list l) by (apply IH; intros; apply H; cbn [In]; auto). lra.
Qed.

(** A sum of non-negative numbers is zero only if each of them is. *)
Lemma sum_list_nonneg_zero (l : list R) :
  (forall r, In r l -> 0 <= r) -> sum_list l = 0 -> forall r, In r l -> r = 0.
Proof.
  induction l as [| a l IH]; intros Hpos Hsum r Hr; [contradiction |].
  rewrite sum_list_cons in Hsum.
  assert (0 <= a) by (apply Hpos; cbn [In]; auto).
  assert (0 <= sum_list l)
    by (apply sum_list_nonneg; intros; apply Hpos; cbn [In]; auto).
  destruct Hr as [<- | Hr]; [lra |].
  apply IH; [intros; apply Hpos; cbn [In]; auto | lra | exact Hr].
Qed.

(** [gram Y] applied to a vector: the sum of [(y . b) y] over the rows. *)
Lemma gram_mat_vec (Y : list Vec) (b : Vec) :
  mat_vec (gram Y) b =
  sum_vectors (map (fun y => scale_vector y (dot_vectors y b)) Y).
Proof.
  induction Y as [| y Y IH].
  - destruct b; cbn; unfold zero_matrix; vec_unfold. apply Vec_eq; ring.
  - cbn [map]. rewrite gram_cons, sum_vectors_cons, <- IH.
    destruct (gram Y) as [[? ? ?] [? ? ?] [? ? ?]], y, b.
    unfold mat_add, outer; vec_cbv. apply Vec_eq; ring.
Qed.

(** The quadratic form of [gram Y]: a sum of squares. *)
Lemma gram_quadratic (Y : list Vec) (a : Vec) :
  dot_vectors a (mat_vec (gram Y) a) =
  sum_list (map (fun y => dot_vectors y a * dot_vectors y a) Y).
Proof.
  rewrite gram_mat_vec, dot_sum_vectors, map_map. f_equal.
  apply map_ext. intros y. rewrite dot_scale_r, (dot_comm a y). ring.
Qed.

Lemma mat_vec_scale (f : R) (M : Mat3) (v : Vec) :
  mat_vec (mat_scale f M) v = scale_vector (mat_vec M v) f.
Proof.
  destruct M as [[? ? ?] [? ? ?] [? ? ?]], v. vec_unfold. apply Vec_eq; ring.
Qed.

(** ** Orthogonal matrices and the singular value decomposition *)

Lemma mat_vec_mul (A B : Mat3) (v : Vec) :
  mat_vec (mat_mul A B) v = mat_vec A (mat_vec B v).
Proof.
  destruct A as [[? ? ?] [? ? ?] [? ? ?]], B as [[? ? ?] [? ? ?] [? ? ?]], v.
  vec_unfold. apply Vec_eq; ring.
Qed.

Lemma orthogonal_left (M : Mat3) (v : Vec) :
  orthogonal M -> mat_vec (transpose M) (mat_vec M v) = v.
Proof. intros [H _]. rewrite <- mat_vec_mul, H. apply mat_vec_identity. Qed.

Lemma orthogonal_right (M : Mat3) (v : Vec) :
  orthogonal M -> mat_vec M (mat_vec (transpose M) v) = v.
Proof. intros [_ H]. rewrite <- mat_vec_mul, H. apply mat_vec_identity. Qed.

(** The rows of an orthogonal matrix are orthonormal. *)
Lemma orthogonal_rows (M : Mat3) :
  orthogonal M ->
  mat_vec M (row0 M) = mkVec 1 0 0 /\
  mat_vec M (row1 M) = mkVec 0 1 0 /\
  mat_vec M (row2 M) = mkVec 0 0 1.
Proof.
  intros [_ H]. destruct M as [[a b c] [d e f] [g h i]].
  unfold identity3 in H. vec_unfold.
  injection H as H1 H2 H3 H4 H5 H6 H7 H8 H9.
  repeat split; apply Vec_eq; lra.
Qed.

Lemma orthogonal_row2_unit (M : Mat3) : orthogonal M -> length_vector (row2 M) = 1.
Proof.
  intros H. destruct (orthogonal_rows M H) as (_ & _ & H2).
  apply length_one. unfold mat_vec in H2. injection H2 as _ _ H2. exact H2.
Qed.

Lemma mat_vec_diag (s v : Vec) :
  mat_vec (diag s) v = mkVec (vx s * vx v) (vy s * vy v) (vz s * vz v).
Proof. destruct s, v; unfold diag; vec_unfold. apply Vec_eq; ring. Qed.

(** ** [bestfit_plane_numpy] *)

Section Plane.

Variable svd : Mat3 -> result (Mat3 * Vec * Mat3).

(** With one point the division by [n - 1] raises. *)
Lemma bestfit_plane_one_point (p : Vec) :
  bestfit_plane_numpy svd [p] = raise ZeroDivisionError.
Proof.
  unfold bestfit_plane_numpy, py_div, bind. cbn [length INR].
  destruct (Req_dec_T (1 - 1) 0) as [_ | H]; [reflexivity | lra].
Qed.

(** With two or more points the outcome is that of the decomposition of
    the covariance matrix. *)
Lemma bestfit_plane_unfold (points : list Vec) :
  (2 <= length points)%nat ->
  bestfit_plane_numpy svd points =
  bind (svd (covariance points))
       (fun usv => let '(u, s, vT) := usv in ret ([centroid points], row2 vT)).
Proof.
  intros Hn. unfold bestfit_plane_numpy, py_div, bind.
  destruct (Req_dec_T (INR (length points) - 1) 0) as [E | _].
  - exfalso. apply le_INR in Hn. cbn [INR] in Hn. lra.
  - cbn [hd]. reflexivity.
Qed.

Lemma bestfit_plane_returns (points : list Vec) (u : Mat3) (s : Vec) (vT : Mat3) :
  (2 <= length points)%nat ->
  svd (covariance points) = inr (u, s, vT) ->
  bestfit_plane_numpy svd points = inr ([centroid points], row2 vT).
Proof.
  intros Hn E. rewrite (bestfit_plane_unfold points Hn), E. reflexivity.
Qed.

End Plane.

(** C10.  On at least 2 points, when [svd] returns a singular value
    decomposition of the covariance matrix, [bestfit_plane_numpy] returns
    the centroid and the third row of [vT], and this normal has length 1:
    it is a row of an orthogonal matrix. *)
Theorem bestfit_plane_normal_unit
  (svd : Mat3 -> result (Mat3 * Vec * Mat3))
  (points : list Vec) (u : Mat3) (s : Vec) (vT : Mat3) :
  (2 <= length points)%nat ->
  svd (covariance points) = inr (u, s, vT) ->
  is_svd (covariance points) u s vT ->
  bestfit_plane_numpy svd points = inr ([centroid points], row2 vT) /\
  length_vector (row2 vT) = 1.
Proof.
  intros Hn E (_ & HvT & _). split.
  - apply bestfit_plane_returns with (u := u) (s := s); assumption.
  - apply orthogonal_row2_unit, HvT.
Qed.

Ltac mat_compute :=
  cbv beta iota zeta delta
    [is_svd orthogonal covariance centroid divide_vector gram sum_vectors
     mat_add outer diag
     zero_matrix map fold_right length INR hd
     zaxis normal transform_point mat_mul from_columns transpose col0 col1 col2
     mat_vec mat_scale det3 add_vectors subtract_vectors scale_vector
     cross_vectors dot_vectors zero_vector identity3
     vx vy vz row0 row1 row2].

Lemma Mat3_eq (a b c a' b' c' : Vec) :
  a = a' -> b = b' -> c = c' -> mkMat3 a b c = mkMat3 a' b' c'.
Proof. intros -> -> ->. reflexivity. Qed.

Ltac mat_eq := apply Mat3_eq; apply Vec_eq; field.

Lemma two_points_svd :
  is_svd (covariance two_points) identity3 (mkVec 2 0 0) identity3.
Proof.
  unfold two_points. mat_compute. repeat split; try lra; mat_eq.
Qed.

Lemma bestfit_plane_normal_unit_witness :
  bestfit_plane_numpy svd_two_points two_points =
    inr ([centroid two_points], row2 identity3) /\
  length_vector (row2 identity3) = 1.
Proof.
  apply (bestfit_plane_normal_unit svd_two_points two_points
           identity3 (mkVec 2 0 0) identity3).
  - cbn [two_points length]. lia.
  - reflexivity.
  - exact two_points_svd.
Defined.

(** ** Points on a plane *)

Lemma sum_list_const {A : Type} (f : A -> R) (k : R) (l : list A) :
  (forall x, In x l -> f x = k) -> sum_list (map f l) = INR (length l) * k.
Proof.
  induction l as [| a l IH]; intros H.
  - cbn. ring.
  - cbn [map length]. rewrite sum_list_cons, S_INR, IH, (H a).
    + ring.
    + cbn [In]; auto.
    + intros; apply H; cbn [In]; auto.
Qed.

Lemma sum_vectors_zero (l : list Vec) :
  (forall v, In v l -> v = zero_vector) -> sum_vectors l = zero_vector.
Proof.
  induction l as [| a l IH]; intros H; [reflexivity |].
  rewrite sum_vectors_cons, (H a), IH.
  - vec_unfold. apply Vec_eq; ring.
  - intros; apply H; cbn [In]; auto.
  - cbn [In]; auto.
Qed.

Lemma transpose_mat_vec (M : Mat3) (v : Vec) :
  mat_vec (transpose M) v =
  add_vectors (add_vectors (scale_vector (row0 M) (vx v)) (scale_vector (row1 M) (vy v)))
              (scale_vector (row2 M) (vz v)).
Proof.
  destruct M as [[? ? ?] [? ? ?] [? ? ?]], v. vec_unfold. apply Vec_eq; ring.
Qed.

Lemma mat_vec_zero (M : Mat3) : mat_vec M zero_vector = zero_vector.
Proof. destruct M as [[? ? ?] [? ? ?] [? ? ?]]. vec_unfold. apply Vec_eq; ring. Qed.

Section PlaneExact.

Variables (points : list Vec) (p0 n : Vec).
Variables (u : Mat3) (s : Vec) (vT : Mat3).

Hypothesis Hcount : (3 <= length points)%nat.
Hypothesis Hunit : length_vector n = 1.
Hypothesis Hplane : forall p, In p points -> on_plane p0 n p.
Hypothesis Hsvd : is_svd (covariance points) u s vT.

Let c := centroid points.
Let Y := map (fun p => subtract_vectors p c) points.

Lemma N_pos : 0 < INR (length points).
Proof. apply INR_length_pos. lia. Qed.

Lemma m_pos : 0 < 1 / (INR (length points) - 1).
Proof.
  apply le_INR in Hcount. cbn [INR] in Hcount.
  apply Rdiv_lt_0_compat; lra.
Qed.

(** The centroid lies on the plane of the points. *)
Lemma centroid_on_plane : on_plane p0 n c.
Proof.
  unfold on_plane, c, centroid.
  change (divide_vector (sum_vectors points) (INR (length points)))
    with (scale_vector (sum_vectors points) (/ INR (length points))).
  assert (H : dot_vectors n (sum_vectors points) =
              INR (length points) * dot_vectors n p0).
  { rewrite dot_sum_vectors. apply sum_list_const.
    intros p Hp. specialize (Hplane p Hp). unfold on_plane in Hplane.
    destruct n, p, p0; vec_unfold; lra. }
  pose proof N_pos as HN.
  replace (dot_vectors n (subtract_vectors
             (scale_vector (sum_vectors points) (/ INR (length points))) p0))
    with (/ INR (length points) * dot_vectors n (sum_vectors points)
          - dot_vectors n p0)
    by (destruct n, (sum_vectors points), p0; vec_unfold; ring).
  rewrite H. field. lra.
Qed.

Lemma centered_orthogonal (y : Vec) : In y Y -> dot_vectors y n = 0.
Proof.
  unfold Y. rewrite in_map_iff. intros (p & <- & Hp).
  pose proof centroid_on_plane as Hc. specialize (Hplane p Hp).
  unfold on_plane in *. fold c.
  destruct n, p, p0, c; vec_unfold; lra.
Qed.

(** The plane's normal is in the kernel of the covariance matrix. *)
Lemma covariance_normal : mat_vec (covariance points) n = zero_vector.
Proof.
  unfold covariance. fold c. fold Y.
  rewrite mat_vec_scale, gram_mat_vec, sum_vectors_zero.
  - vec_unfold. apply Vec_eq; ring.
  - intros v. rewrite in_map_iff. intros (y & <- & Hy).
    rewrite (centered_orthogonal y Hy). destruct y; vec_unfold. apply Vec_eq; ring.
Qed.

Lemma covariance_svd (x : Vec) :
  mat_vec (covariance points) x =
  mat_vec u (mat_vec (diag s) (mat_vec vT x)).
Proof.
  destruct Hsvd as (_ & _ & _ & _ & _ & ->). rewrite !mat_vec_mul. reflexivity.
Qed.

(** A right-singular vector of singular value 0 is orthogonal to all
    centered points. *)
Lemma kernel_orthogonal (a : Vec) :
  mat_vec (covariance points) a = zero_vector ->
  forall y, In y Y -> dot_vectors y a = 0.
Proof.
  intros Ha y Hy.
  assert (Hq : sum_list (map (fun y => dot_vectors y a * dot_vectors y a) Y) = 0).
  { rewrite <- gram_quadratic.
    unfold covariance in Ha. fold c in Ha. fold Y in Ha.
    rewrite mat_vec_scale in Ha.
    apply scale_zero_inv in Ha; [| pose proof m_pos; lra].
    rewrite Ha. destruct a; vec_unfold; ring. }
  assert (Hsq : dot_vectors y a * dot_vectors y a = 0).
  { apply (sum_list_nonneg_zero _) with (2 := Hq).
    - intros r Hr. apply in_map_iff in Hr as (z & <- & _). nra.
    - apply in_map_iff. exists y. split; [reflexivity | exact Hy]. }
  nra.
Qed.

Lemma singular_vector_1 :
  mat_vec (covariance points) (row1 vT) = scale_vector (col1 u) (vy s).
Proof.
  rewrite covariance_svd.
  destruct Hsvd as (_ & HvT & _).
  destruct (orthogonal_rows vT HvT) as (_ & -> & _).
  rewrite mat_vec_diag.
  destruct u as [[? ? ?] [? ? ?] [? ? ?]], s. vec_cbv. apply Vec_eq; ring.
Qed.

Lemma singular_vector_2 :
  mat_vec (covariance points) (row2 vT) = scale_vector (col2 u) (vz s).
Proof.
  rewrite covariance_svd.
  destruct Hsvd as (_ & HvT & _).
  destruct (orthogonal_rows vT HvT) as (_ & _ & ->).
  rewrite mat_vec_diag.
  destruct u as [[? ? ?] [? ? ?] [? ? ?]], s. vec_cbv. apply Vec_eq; ring.
Qed.

(** If the second singular value vanishes, the points are on a line. *)
Lemma rank_one_collinear : vy s = 0 -> collinear points.
Proof.
  intros H1.
  assert (H2 : vz s = 0) by (destruct Hsvd as (_ & _ & ? & ? & _); lra).
  assert (K1 : forall y, In y Y -> dot_vectors y (row1 vT) = 0).
  { apply kernel_orthogonal. rewrite singular_vector_1, H1.
    destruct (col1 u); vec_unfold. apply Vec_eq; ring. }
  assert (K2 : forall y, In y Y -> dot_vectors y (row2 vT) = 0).
  { apply kernel_orthogonal. rewrite singular_vector_2, H2.
    destruct (col2 u); vec_unfold. apply Vec_eq; ring. }
  exists c, (row0 vT). intros p Hp.
  exists (dot_vectors (row0 vT) (subtract_vectors p c)).
  assert (Hy : In (subtract_vectors p c) Y).
  { unfold Y. apply in_map_iff. exists p. split; [reflexivity | exact Hp]. }
  specialize (K1 _ Hy). specialize (K2 _ Hy).
  destruct Hsvd as (_ & HvT & _).
  pose proof (orthogonal_left vT (subtract_vectors p c) HvT) as E.
  rewrite transpose_mat_vec in E. unfold mat_vec in E. cbn [vx vy vz] in E.
  rewrite (dot_comm (row1 vT)), (dot_comm (row2 vT)), K1, K2 in E.
  revert E. generalize (dot_vectors (row0 vT) (subtract_vectors p c)).
  intros t E. destruct (row0 vT), (row1 vT), (row2 vT), p, c. vec_unfold.
  injection E as E1 E2 E3. apply Vec_eq; lra.
Qed.

(** Otherwise the third right-singular vector is the normal, up to sign. *)
Lemma third_row_normal :
  ~ collinear points ->
  row2 vT = n \/ row2 vT = scale_vector n (-1).
Proof.
  intros Hnc.
  assert (H1 : 0 < vy s).
  { destruct Hsvd as (_ & _ & ? & ? & _).
    destruct (Req_dec_T (vy s) 0) as [E | E]; [| lra].
    exfalso. apply Hnc, rank_one_collinear, E. }
  assert (H0 : 0 < vx s) by (destruct Hsvd as (_ & _ & _ & _ & ? & _); lra).
  pose proof covariance_normal as Hk. rewrite covariance_svd in Hk.
  destruct Hsvd as (Hu & HvT & _).
  apply (f_equal (mat_vec (transpose u))) in Hk.
  rewrite (orthogonal_left u _ Hu), mat_vec_zero, mat_vec_diag in Hk.
  pose proof (orthogonal_left vT n HvT) as E.
  rewrite transpose_mat_vec in E.
  pose proof (length_one_dot _ (orthogonal_row2_unit vT HvT)) as Hr.
  pose proof (length_one_dot _ Hunit) as Hn.
  revert Hk E. generalize (mat_vec vT n). intros [k0 k1 k2] Hk E.
  cbn [vx vy vz] in *. unfold zero_vector in Hk. injection Hk as Hk0 Hk1 _.
  assert (k0 = 0) by nra. assert (k1 = 0) by nra. subst k0 k1.
  assert (En : n = scale_vector (row2 vT) k2).
  { rewrite <- E. destruct (row0 vT), (row1 vT), (row2 vT). vec_unfold.
    apply Vec_eq; ring. }
  assert (Hk2 : k2 * k2 = 1).
  { rewrite En, scale_dot_self, Hr in Hn. lra. }
  assert (Hc : k2 = 1 \/ k2 = -1) by nra.
  destruct Hc as [-> | ->]; [left | right]; rewrite En;
    destruct (row2 vT); vec_unfold; apply Vec_eq; ring.
Qed.

End PlaneExact.

(** C3.  For at least 3 points that lie on the plane through [p0] with
    unit normal [n] and are not all on one line, when [svd] returns a
    singular value decomposition of the centered covariance matrix,
    [bestfit_plane_numpy] returns the centroid of the points and the third
    row of [vT]; this row is the right-singular vector of the smallest
    singular value, and it is [n] or [-n]. *)
Theorem bestfit_plane_exact
  (svd : Mat3 -> result (Mat3 * Vec * Mat3))
  (points : list Vec) (p0 n : Vec) (u : Mat3) (s : Vec) (vT : Mat3) :
  (3 <= length points)%nat ->
  length_vector n = 1 ->
  (forall p, In p points -> on_plane p0 n p) ->
  ~ collinear points ->
  svd (covariance points) = inr (u, s, vT) ->
  is_svd (covariance points) u s vT ->
  bestfit_plane_numpy svd points = inr ([centroid points], row2 vT) /\
  (mat_vec (covariance points) (row2 vT) = scale_vector (col2 u) (vz s) /\
   vz s <= vy s /\ vz s <= vx s) /\
  (row2 vT = n \/ row2 vT = scale_vector n (-1)).
Proof.
  intros Hcount Hunit Hplane Hnc E Hsvd. repeat split.
  - apply bestfit_plane_returns with (u := u) (s := s); [lia | exact E].
  - apply singular_vector_2, Hsvd.
  - destruct Hsvd as (_ & _ & _ & ? & _). assumption.
  - destruct Hsvd as (_ & _ & _ & ? & ? & _). lra.
  - eapply third_row_normal; eassumption.
Qed.

Lemma three_points_not_collinear : ~ collinear three_points.
Proof.
  intros (a & d & H).
  destruct (H (mkVec 1 0 0)) as [t1 H1]; [cbn; auto |].
  destruct (H (mkVec (-1) 0 0)) as [t2 H2]; [cbn; auto |].
  destruct (H (mkVec 0 1 0)) as [t3 H3]; [cbn; auto 6 |].
  destruct a as [ax ay az], d as [dx dy dz]. vec_cbv.
  injection H1 as X1 Y1 _. injection H2 as X2 Y2 _. injection H3 as X3 Y3 _.
  assert (Hy : dy * (t1 - t2) = 0) by lra.
  assert (Hx : dx * (t1 - t2) = 2) by lra.
  assert (Hy3 : dy * (t3 - t1) = 1) by lra.
  assert (dy = 0) by nra. subst dy. lra.
Qed.

Lemma three_points_svd :
  is_svd (covariance three_points) identity3 (mkVec 1 (1 / 3) 0) identity3.
Proof.
  unfold three_points. mat_compute. repeat split; try lra; mat_eq.
Qed.

Lemma bestfit_plane_exact_witness :
  bestfit_plane_numpy svd_three_points three_points =
    inr ([centroid three_points], row2 identity3) /\
  (mat_vec (covariance three_points) (row2 identity3) =
     scale_vector (col2 identity3) (vz (mkVec 1 (1 / 3) 0)) /\
   vz (mkVec 1 (1 / 3) 0) <= vy (mkVec 1 (1 / 3) 0) /\
   vz (mkVec 1 (1 / 3) 0) <= vx (mkVec 1 (1 / 3) 0)) /\
  (row2 identity3 = mkVec 0 0 1 \/ row2 identity3 = scale_vector (mkVec 0 0 1) (-1)).
Proof.
  apply (bestfit_plane_exact svd_three_points three_points
           (mkVec 0 0 0) (mkVec 0 0 1)).
  - cbn [three_points length]. lia.
  - apply length_one; vec_cbv; ring.
  - intros p Hp. unfold on_plane.
    destruct Hp as [<- | [<- | [<- | []]]]; vec_cbv; ring.
  - exact three_points_not_collinear.
  - reflexivity.
  - exact three_points_svd.
Defined.

(** ** [bestfit_sphere_numpy] *)

Lemma combine_columns (l : list Vec) :
  combine (map vx l) (combine (map vy l) (map vz l)) =
  map (fun p => (vx p, (vy p, vz p))) l.
Proof.
  induction l as [| p l IH]; [reflexivity |].
  cbn [map combine]. rewrite IH. reflexivity.
Qed.

Lemma combine_map {A B C : Type} (f : A -> B) (g : A -> C) (l : list A) :
  combine (map f l) (map g l) = map (fun a => (f a, g a)) l.
Proof.
  induction l as [| a l IH]; [reflexivity |].
  cbn [map combine]. rewrite IH. reflexivity.
Qed.

(** The system the code assembles is that of the linearised sphere
    equations of the points. *)
Lemma bestfit_sphere_unfold
  (lstsq : list Row4 -> list R -> result Row4) (points : list Vec) :
  bestfit_sphere_numpy lstsq points =
  bind (lstsq (map sphere_row points) (map sphere_rhs points))
       (fun C => ret (mkVec (c0 C) (c1 C) (c2 C),
                      np_sqrt (c0 C * c0 C + c1 C * c1 C + c2 C * c2 C + c3 C))).
Proof.
  unfold bestfit_sphere_numpy. rewrite combine_columns, !map_map. reflexivity.
Qed.

Lemma residual_points (points : list Vec) (x : Row4) :
  residual (map sphere_row points) (map sphere_rhs points) x =
  sum_list (map (fun p => (dot4 (sphere_row p) x - sphere_rhs p) ^ 2) points).
Proof.
  unfold residual. rewrite combine_map, map_map. reflexivity.
Qed.

Lemma residual_nonneg (A : list Row4) (f : list R) (x : Row4) : 0 <= residual A f x.
Proof.
  unfold residual. apply sum_list_nonneg.
  intros r Hr. apply in_map_iff in Hr as (ab & <- & _). apply pow2_ge_0.
Qed.

(** The coefficients of the sphere with centre [center] and radius [r]. *)
Lemma sphere_equation (center p : Vec) (r : R) :
  length_vector (subtract_vectors p center) = r ->
  dot4 (sphere_row p)
       (mkRow4 (vx center) (vy center) (vz center)
               (r * r - dot_vectors center center)) = sphere_rhs p.
Proof.
  intros H. pose proof (length_sqr (subtract_vectors p center)) as E.
  rewrite H in E. destruct center, p.
  unfold dot4, sphere_row, sphere_rhs. cbn [c0 c1 c2 c3]. vec_cbv. lra.
Qed.

Section SphereExact.

Variables (points : list Vec) (center : Vec) (r : R) (C : Row4).

Hypothesis Hcount : (4 <= length points)%nat.
Hypothesis Hspace : ~ coplanar points.
Hypothesis Hr : 0 <= r.
Hypothesis Hsphere :
  forall p, In p points -> length_vector (subtract_vectors p center) = r.
Hypothesis Hlsq :
  is_least_squares (map sphere_row points) (map sphere_rhs points) C.

(** The least-squares solution solves every equation exactly. *)
Lemma least_squares_exact (p : Vec) :
  In p points -> dot4 (sphere_row p) C = sphere_rhs p.
Proof.
  intros Hp.
  pose (x := mkRow4 (vx center) (vy center) (vz center)
                    (r * r - dot_vectors center center)).
  assert (H0 : residual (map sphere_row points) (map sphere_rhs points) x = 0).
  { rewrite residual_points. apply sum_list_zero.
    intros t Ht. apply in_map_iff in Ht as (q & <- & Hq).
    unfold x. rewrite (sphere_equation center q r (Hsphere q Hq)). ring. }
  pose proof (Hlsq x) as Hle. rewrite H0 in Hle.
  pose proof (residual_nonneg (map sphere_row points) (map sphere_rhs points) C) as Hge.
  assert (HC : residual (map sphere_row points) (map sphere_rhs points) C = 0) by lra.
  rewrite residual_points in HC.
  assert (Hsq : (dot4 (sphere_row p) C - sphere_rhs p) ^ 2 = 0).
  { apply (sum_list_nonneg_zero _) with (2 := HC).
    - intros t Ht. apply in_map_iff in Ht as (q & <- & _). apply pow2_ge_0.
    - apply in_map_iff. exists p. split; [reflexivity | exact Hp]. }
  revert Hsq. generalize (dot4 (sphere_row p) C). generalize (sphere_rhs p).
  intros b a Hsq. nra.
Qed.

(** Points that are not on a plane determine the coefficients. *)
Lemma least_squares_unique :
  C = mkRow4 (vx center) (vy center) (vz center) (r * r - dot_vectors center center).
Proof.
  pose (d := mkVec (c0 C - vx center) (c1 C - vy center) (c2 C - vz center)).
  pose (e := c3 C - (r * r - dot_vectors center center)).
  assert (Hd : forall p, In p points -> dot_vectors d p = - e / 2).
  { intros p Hp. pose proof (least_squares_exact p Hp) as H1.
    pose proof (sphere_equation center p r (Hsphere p Hp)) as H2.
    unfold d, e. destruct C, center, p.
    unfold dot4, sphere_row, sphere_rhs in *. cbn [c0 c1 c2 c3] in *. vec_cbv. lra. }
  assert (Hz : d = zero_vector).
  { destruct (Req_dec_T (dot_vectors d d) 0) as [E | E].
    - apply dot_self_zero, E.
    - exfalso. apply Hspace. exists d, (- e / 2). split; [| exact Hd].
      apply dot_self_nonzero, E. }
  assert (He : e = 0).
  { destruct points as [| p l]; [cbn in Hcount; lia |].
    pose proof (Hd p (or_introl eq_refl)) as H. rewrite Hz in H.
    destruct p. vec_cbv. lra. }
  unfold d, zero_vector in Hz. injection Hz as H0 H1 H2. unfold e in He.
  destruct C as [a b c k]. cbn [c0 c1 c2 c3] in *. f_equal; lra.
Qed.

Lemma np_sqrt_square : np_sqrt (r * r) = Some r.
Proof.
  unfold np_sqrt. destruct (Rlt_dec (r * r) 0) as [H | _]; [nra |].
  rewrite sqrt_square; [reflexivity | exact Hr].
Qed.

End SphereExact.

(** C4.  For at least 4 points that are not on one plane, when [lstsq]
    returns a least-squares solution [C] of the linearised sphere
    equations [2x xc + 2y yc + 2z zc + c = x^2 + y^2 + z^2] of the points,
    [bestfit_sphere_numpy] returns the first three coefficients as centre
    and [sqrt(c + xc^2 + yc^2 + zc^2)] as radius; if the points lie on the
    sphere with centre [center] and radius [r], it returns [center] and
    [r]. *)
Theorem bestfit_sphere_least_squares
  (lstsq : list Row4 -> list R -> result Row4)
  (points : list Vec) (C : Row4) (center : Vec) (r : R) :
  (4 <= length points)%nat ->
  ~ coplanar points ->
  lstsq (map sphere_row points) (map sphere_rhs points) = inr C ->
  is_least_squares (map sphere_row points) (map sphere_rhs points) C ->
  bestfit_sphere_numpy lstsq points =
    inr (mkVec (c0 C) (c1 C) (c2 C),
         np_sqrt (c0 C * c0 C + c1 C * c1 C + c2 C * c2 C + c3 C)) /\
  (0 <= r ->
   (forall p, In p points -> length_vector (subtract_vectors p center) = r) ->
   bestfit_sphere_numpy lstsq points = inr (center, Some r)).
Proof.
  intros Hcount Hspace E Hlsq.
  rewrite bestfit_sphere_unfold, E. cbn [bind]. split; [reflexivity |].
  intros Hr Hsphere.
  rewrite (least_squares_unique points center r C Hcount Hspace Hsphere Hlsq).
  cbn [c0 c1 c2 c3]. unfold ret. do 2 f_equal.
  - destruct center; reflexivity.
  - rewrite <- (np_sqrt_square r Hr). f_equal.
    destruct center; vec_cbv; ring.
Qed.

Lemma four_points_not_coplanar : ~ coplanar four_points.
Proof.
  intros (n & d & Hn & H).
  pose proof (H (mkVec 1 0 0)) as H1.
  pose proof (H (mkVec (-1) 0 0)) as H2.
  pose proof (H (mkVec 0 1 0)) as H3.
  pose proof (H (mkVec 0 0 1)) as H4.
  unfold four_points in *. cbn [In] in *.
  specialize (H1 (or_introl eq_refl)).
  specialize (H2 (or_intror (or_introl eq_refl))).
  specialize (H3 (or_intror (or_intror (or_introl eq_refl)))).
  specialize (H4 (or_intror (or_intror (or_intror (or_introl eq_refl))))).
  apply Hn. destruct n as [a b c]. vec_cbv. apply Vec_eq; lra.
Qed.

Lemma four_points_least_squares :
  is_least_squares (map sphere_row four_points) (map sphere_rhs four_points)
                   (mkRow4 0 0 0 1).
Proof.
  intros y. eapply Rle_trans; [| apply residual_nonneg].
  apply Req_le. rewrite residual_points. apply sum_list_zero.
  intros t Ht. apply in_map_iff in Ht as (p & <- & Hp).
  unfold four_points in Hp.
  destruct Hp as [<- | [<- | [<- | [<- | []]]]];
    unfold dot4, sphere_row, sphere_rhs; cbn [c0 c1 c2 c3 vx vy vz]; ring.
Qed.

Lemma bestfit_sphere_least_squares_witness :
  bestfit_sphere_numpy lstsq_unit_sphere four_points = inr (mkVec 0 0 0, Some 1).
Proof.
  apply (bestfit_sphere_least_squares lstsq_unit_sphere four_points
           (mkRow4 0 0 0 1) (mkVec 0 0 0) 1).
  - cbn [four_points length]. lia.
  - exact four_points_not_coplanar.
  - reflexivity.
  - exact four_points_least_squares.
  - lra.
  - intros p Hp. apply length_one. unfold four_points in Hp.
    destruct Hp as [<- | [<- | [<- | [<- | []]]]]; vec_cbv; ring.
Defined.

(** ** Input the estimators do not check *)

(** C5, as stated, fails: on the two points (1, 0, 0) and (-1, 0, 0), with
    the singular value decomposition of their covariance matrix, the plane
    fit returns a point and a normal. *)
Lemma bestfit_plane_two_points_returns :
  bestfit_plane_numpy svd_two_points two_points =
    inr ([centroid two_points], mkVec 0 0 1) /\
  bestfit_plane_numpy svd_two_points two_points <> raise InsufficientDataError.
Proof.
  assert (E : bestfit_plane_numpy svd_two_points two_points =
              inr ([centroid two_points], mkVec 0 0 1)).
  { apply (bestfit_plane_returns svd_two_points two_points identity3 (mkVec 2 0 0)
             identity3).
    - cbn [two_points length]. lia.
    - reflexivity. }
  split; [exact E | rewrite E; discriminate].
Qed.

(** C5 (amended).  Neither estimator checks the number of points.  The
    plane fit on exactly one point raises [ZeroDivisionError]; on two or
    more points it returns the centroid and the third row of [vT] when the
    decomposition returns, and an exception it raises is one the
    decomposition raised.  The sphere fit, on any number of points, returns
    the centre and radius of the solution [lstsq] returns, and an exception
    it raises is one [lstsq] raised. *)
Theorem bestfit_count_unchecked
  (svd : Mat3 -> result (Mat3 * Vec * Mat3))
  (lstsq : list Row4 -> list R -> result Row4) :
  (forall p : Vec, bestfit_plane_numpy svd [p] = raise ZeroDivisionError) /\
  (forall points u s vT, (2 <= length points)%nat ->
     svd (covariance points) = inr (u, s, vT) ->
     bestfit_plane_numpy svd points = inr ([centroid points], row2 vT)) /\
  (forall points e, (2 <= length points)%nat ->
     bestfit_plane_numpy svd points = inl e -> svd (covariance points) = inl e) /\
  (forall points C,
     lstsq (map sphere_row points) (map sphere_rhs points) = inr C ->
     bestfit_sphere_numpy lstsq points =
       inr (mkVec (c0 C) (c1 C) (c2 C),
            np_sqrt (c0 C * c0 C + c1 C * c1 C + c2 C * c2 C + c3 C))) /\
  (forall points e,
     bestfit_sphere_numpy lstsq points = inl e ->
     lstsq (map sphere_row points) (map sphere_rhs points) = inl e).
Proof.
  repeat split.
  - apply bestfit_plane_one_point.
  - intros points u s vT Hn E. eapply bestfit_plane_returns; eassumption.
  - intros points e Hn. rewrite (bestfit_plane_unfold svd points Hn).
    unfold bind. destruct (svd (covariance points)) as [e' | [[u s] vT]].
    + intros H; injection H as ->. reflexivity.
    + discriminate.
  - intros points C E. rewrite bestfit_sphere_unfold, E. reflexivity.
  - intros points e. rewrite bestfit_sphere_unfold. unfold bind.
    destruct (lstsq _ _) as [e' | C].
    + intros H; injection H as ->. reflexivity.
    + discriminate.
Qed.

Lemma bestfit_count_unchecked_witness :
  bestfit_plane_numpy svd_two_points two_points =
    inr ([centroid two_points], row2 identity3).
Proof.
  apply (proj1 (proj2 (bestfit_count_unchecked svd_two_points lstsq_unit_sphere))
           two_points identity3 (mkVec 2 0 0) identity3).
  - cbn [two_points length]. lia.
  - reflexivity.
Defined.

(** ** [bestfit_circle_numpy] *)

(** C6, as stated, fails: when the solver reports that it did not
    converge (flag 5), the circle fit still returns a centre, a normal and
    a radius. *)
Lemma bestfit_circle_not_converged_returns :
  converged 5 = false /\
  leastsq_exhausted (circle_f (map vx three_points) (map vy three_points))
    (mean (map vx three_points), mean (map vy three_points)) =
    inr ((mean (map vx three_points), mean (map vy three_points)), 5%Z) /\
  (exists out,
     snd (bestfit_circle_numpy leastsq_exhausted pca_world coords_world coords_world
            three_points) = inr out) /\
  snd (bestfit_circle_numpy leastsq_exhausted pca_world coords_world coords_world
         three_points) <> raise ConvergenceError.
Proof.
  repeat split.
  - eexists. reflexivity.
  - discriminate.
Qed.

(** C6 (amended).  [bestfit_circle_numpy] does not look at the flag [ier]
    that [leastsq] returns and raises no [ConvergenceError]: whatever the
    flag, when its collaborators return it returns the centre mapped back
    to world coordinates, the third axis of the local frame and the mean
    distance of the projected points from the parameters [leastsq]
    returned. *)
Theorem bestfit_circle_ignores_flag
  (leastsq : (R * R -> list R) -> R * R -> result ((R * R) * Z))
  (pca_numpy : list Vec -> result (Vec * Mat3 * Vec))
  (local_coords_numpy global_coords_numpy : Vec -> Mat3 -> list Vec -> result (list Vec))
  (points : list Vec) (o : Vec) (uvw : Mat3) (sv : Vec) (rst : list Vec)
  (c : R * R) (ier : Z) (xyz : Vec) (rest : list Vec) :
  pca_numpy points = inr (o, uvw, sv) ->
  local_coords_numpy o uvw points = inr rst ->
  leastsq (circle_f (map vx rst) (map vy rst))
          (mean (map vx rst), mean (map vy rst)) = inr (c, ier) ->
  global_coords_numpy o uvw [mkVec (fst c) (snd c) 0] = inr (xyz :: rest) ->
  snd (bestfit_circle_numpy leastsq pca_numpy local_coords_numpy
         global_coords_numpy points) =
  inr (xyz, row2 uvw,
       mean (circle_dist (map vx rst) (map vy rst) (fst c) (snd c))).
Proof.
  intros Hpca Hloc Hsolve Hglob. unfold bestfit_circle_numpy.
  rewrite Hpca, Hloc, Hsolve. cbn [snd]. rewrite Hglob. reflexivity.
Qed.

Lemma bestfit_circle_ignores_flag_witness :
  snd (bestfit_circle_numpy leastsq_exhausted pca_world coords_world coords_world
         three_points) =
  inr (mkVec (mean (map vx three_points)) (mean (map vy three_points)) 0,
       row2 identity3,
       mean (circle_dist (map vx three_points) (map vy three_points)
               (mean (map vx three_points)) (mean (map vy three_points)))).
Proof.
  apply (bestfit_circle_ignores_flag leastsq_exhausted pca_world coords_world
           coords_world three_points zero_vector identity3 zero_vector
           three_points
           (mean (map vx three_points), mean (map vy three_points)) 5%Z
           (mkVec (mean (map vx three_points)) (mean (map vy three_points)) 0) []);
    reflexivity.
Defined.

(* ================================================================== *)
(** * Part III: further properties of [Frame] *)
(* ================================================================== *)

(** ** Normalisation and the constructor *)

Lemma unitize_normalized (v : Vec) :
  v <> zero_vector -> unitize v = inr (normalized v).
Proof. apply unitize_scale. Qed.

Lemma length_scale (v : Vec) (k : R) :
  0 <= k -> length_vector (scale_vector v k) = k * length_vector v.
Proof.
  intros Hk. unfold length_vector. rewrite scale_dot_self.
  rewrite sqrt_mult; [| nra | apply dot_self_nonneg].
  rewrite sqrt_square; [reflexivity | exact Hk].
Qed.

Lemma scale_scale (v : Vec) (a b : R) :
  scale_vector (scale_vector v a) b = scale_vector v (a * b).
Proof. destruct v; vec_cbv. apply Vec_eq; ring. Qed.

Lemma scale_nonzero (v : Vec) (k : R) :
  k <> 0 -> v <> zero_vector -> scale_vector v k <> zero_vector.
Proof. intros Hk Hv E. apply Hv. eapply scale_zero_inv; eassumption. Qed.

(** A positive factor does not change the unit vector of a direction. *)
Lemma normalized_scale (v : Vec) (k : R) :
  0 < k -> v <> zero_vector -> normalized (scale_vector v k) = normalized v.
Proof.
  intros Hk Hv. unfold normalized. rewrite length_scale by lra.
  rewrite scale_scale. f_equal.
  pose proof (length_pos v Hv). field. lra.
Qed.

Lemma normalized_unit (v : Vec) :
  v <> zero_vector -> length_vector (normalized v) = 1.
Proof. apply length_unitized. Qed.

Lemma normalized_dot (v w : Vec) :
  dot_vectors (normalized v) w = / length_vector v * dot_vectors v w.
Proof. unfold normalized. apply dot_scale_l. Qed.

(** The y-axis setter keeps a unit vector orthogonal to the x-axis. *)
Lemma yaxis_value_orthonormal (x y : Vec) :
  length_vector x = 1 -> length_vector y = 1 -> dot_vectors x y = 0 ->
  yaxis_value x y = inr y.
Proof.
  intros Hx Hy Hxy.
  assert (Hz : length_vector (cross_vectors x y) = 1).
  { apply length_one. rewrite cross_dot_self.
    rewrite (length_one_dot _ Hx), (length_one_dot _ Hy), Hxy. ring. }
  unfold yaxis_value, bind, ret.
  rewrite (unitize_unit _ Hy). cbn iota beta.
  rewrite (unitize_unit _ Hz). cbn iota beta.
  f_equal. rewrite cross_cross_l, (length_one_dot _ Hx), Hxy.
  destruct x, y; vec_cbv. apply Vec_eq; ring.
Qed.

Lemma Frame_init_orthonormal (o x y : Vec) :
  length_vector x = 1 -> length_vector y = 1 -> dot_vectors x y = 0 ->
  Frame_init o x y = inr (mkFrame o x y).
Proof.
  intros Hx Hy Hxy. rewrite Frame_init_unfold. unfold xaxis_value, bind, ret.
  rewrite (unitize_unit _ Hx). cbn iota beta.
  rewrite (yaxis_value_orthonormal x y Hx Hy Hxy). reflexivity.
Qed.

Lemma cross_normalized (x y : Vec) :
  cross_vectors (normalized x) (normalized y) =
  scale_vector (cross_vectors x y) (/ length_vector x * / length_vector y).
Proof.
  unfold normalized. rewrite cross_scale_l, cross_scale_r, scale_scale.
  f_equal. ring.
Qed.

(** The frame the constructor builds from a non-degenerate pair. *)
Lemma Frame_init_explicit (o x y : Vec) :
  non_degenerate x y ->
  Frame_init o x y =
  inr (mkFrame o (normalized x)
         (cross_vectors (normalized (cross_vectors x y)) (normalized x))).
Proof.
  intros H.
  pose proof (non_degenerate_l _ _ H) as Hx.
  pose proof (non_degenerate_r _ _ H) as Hy.
  pose proof (length_pos x Hx) as Lx. pose proof (length_pos y Hy) as Ly.
  assert (Hk : 0 < / length_vector x * / length_vector y).
  { apply Rmult_lt_0_compat; apply Rinv_0_lt_compat; assumption. }
  rewrite Frame_init_unfold. unfold xaxis_value, yaxis_value, bind, ret.
  rewrite (unitize_normalized x Hx). cbn iota beta.
  rewrite (unitize_normalized y Hy). cbn iota beta.
  rewrite cross_normalized.
  rewrite unitize_normalized by (apply scale_nonzero; [lra | exact H]).
  cbn iota beta. rewrite normalized_scale by assumption. reflexivity.
Qed.

Lemma not_non_degenerate (x y : Vec) :
  ~ non_degenerate x y -> cross_vectors x y = zero_vector.
Proof.
  intros H. destruct (Req_dec_T (dot_vectors (cross_vectors x y) (cross_vectors x y)) 0)
    as [E | E].
  - apply dot_self_zero, E.
  - exfalso. apply H. apply dot_self_nonzero, E.
Qed.

Lemma vec_zero_dec (v : Vec) : {v = zero_vector} + {v <> zero_vector}.
Proof.
  destruct (Req_dec_T (dot_vectors v v) 0) as [E | E].
  - left. apply dot_self_zero, E.
  - right. apply dot_self_nonzero, E.
Qed.

Lemma Frame_init_degenerate (o x y : Vec) :
  ~ non_degenerate x y -> Frame_init o x y = inl DegenerateInputError.
Proof.
  intros H. apply not_non_degenerate in H.
  rewrite Frame_init_unfold. unfold xaxis_value, yaxis_value, bind, ret.
  destruct (vec_zero_dec x) as [-> | Hx]; [rewrite unitize_zero; reflexivity |].
  rewrite (unitize_normalized x Hx). cbn iota beta.
  destruct (vec_zero_dec y) as [-> | Hy]; [rewrite unitize_zero; reflexivity |].
  rewrite (unitize_normalized y Hy). cbn iota beta.
  rewrite cross_normalized, H.
  replace (scale_vector zero_vector (/ length_vector x * / length_vector y))
    with zero_vector by (vec_cbv; apply Vec_eq; ring).
  rewrite unitize_zero. reflexivity.
Qed.

Lemma Frame_init_non_degenerate (o x y : Vec) (F : Frame) :
  Frame_init o x y = inr F -> non_degenerate x y.
Proof.
  intros HF H0. rewrite Frame_init_degenerate in HF; [discriminate |].
  intros H. apply H, H0.
Qed.

(** X1.  A zero vector is rejected as an axis everywhere: the constructor
    raises the error of the normalisation when either input axis is the
    zero vector, whatever the other one is, and the two axis setters raise
    it and leave the frame as it is. *)
Theorem zero_axis_rejected (o v : Vec) (F : Frame) :
  Frame_init o zero_vector v = inl DegenerateInputError /\
  Frame_init o v zero_vector = inl DegenerateInputError /\
  set_xaxis zero_vector F = (inl DegenerateInputError, F) /\
  set_yaxis zero_vector F = (inl DegenerateInputError, F).
Proof.
  repeat split.
  - rewrite Frame_init_unfold. unfold xaxis_value, bind.
    rewrite unitize_zero. reflexivity.
  - rewrite Frame_init_unfold. unfold xaxis_value, yaxis_value, bind, ret.
    destruct (unitize v) as [e | x] eqn:E.
    + destruct (vec_zero_dec v) as [-> | Hv].
      * rewrite unitize_zero in E. injection E as <-. reflexivity.
      * rewrite (unitize_normalized v Hv) in E. discriminate.
    + rewrite unitize_zero. reflexivity.
  - unfold set_xaxis, xaxis_value, bind. rewrite unitize_zero. reflexivity.
  - unfold set_yaxis, yaxis_value, bind. rewrite unitize_zero. reflexivity.
Qed.

Lemma cross_cross_unit (x z : Vec) :
  length_vector x = 1 -> dot_vectors z x = 0 ->
  cross_vectors x (cross_vectors z x) = z.
Proof.
  intros Hx Hzx. apply length_one_dot in Hx.
  transitivity (subtract_vectors (scale_vector z (dot_vectors x x))
                                 (scale_vector x (dot_vectors z x))).
  - destruct x as [a b c], z as [d e f]. vec_cbv. apply Vec_eq; ring.
  - rewrite Hx, Hzx. destruct x, z. vec_cbv. apply Vec_eq; ring.
Qed.

Lemma normalized_cross_orth_l (x y : Vec) :
  dot_vectors (normalized (cross_vectors x y)) (normalized x) = 0.
Proof.
  rewrite normalized_dot. unfold normalized. rewrite dot_scale_r, cross_orth_l. ring.
Qed.

Lemma Frame_init_axes_aux (o x y : Vec) (F : Frame) :
  Frame_init o x y = inr F ->
  _point F = o /\
  _xaxis F = normalized x /\
  zaxis F = normalized (cross_vectors x y) /\
  _yaxis F = cross_vectors (zaxis F) (_xaxis F) /\
  0 < dot_vectors (_yaxis F) y.
Proof.
  intros HF.
  pose proof (Frame_init_non_degenerate o x y F HF) as H.
  rewrite (Frame_init_explicit o x y H) in HF. injection HF as <-.
  pose proof (non_degenerate_l _ _ H) as Hx.
  assert (Hz : zaxis (mkFrame o (normalized x)
                  (cross_vectors (normalized (cross_vectors x y)) (normalized x)))
               = normalized (cross_vectors x y)).
  { unfold zaxis, normal. cbn [_xaxis _yaxis].
    apply cross_cross_unit; [apply normalized_unit, Hx |].
    apply normalized_cross_orth_l. }
  repeat split.
  - exact Hz.
  - rewrite Hz. reflexivity.
  - cbn [_yaxis]. unfold normalized.
    rewrite cross_scale_l, cross_scale_r, scale_scale, dot_scale_l, cross_cross_l.
    pose proof (length_pos x Hx) as Lx. pose proof (length_pos _ H) as Lc.
    assert (Hpos : 0 < dot_vectors (cross_vectors x y) (cross_vectors x y)).
    { rewrite <- length_sqr. nra. }
    rewrite cross_dot_self in Hpos.
    apply Rmult_lt_0_compat.
    + apply Rmult_lt_0_compat; apply Rinv_0_lt_compat; assumption.
    + destruct x as [a b c], y as [d e f]. vec_cbv. vec_cbv. nra.
Qed.

(** X2.  For input axes [x] and [y] that are not parallel, [Frame(o, x, y)]
    returns a frame with origin [o] whose x-axis is the unit vector of [x],
    whose normal is the unit vector of [x * y] (cross product), whose stored
    y-axis is the cross product of the normal and the x-axis, and whose
    y-axis points to the side of the input [y]: their scalar product is
    positive. *)
Theorem Frame_init_axes (o x y : Vec) :
  non_degenerate x y ->
  exists F,
    Frame_init o x y = inr F /\
    _point F = o /\
    _xaxis F = normalized x /\
    zaxis F = normalized (cross_vectors x y) /\
    _yaxis F = cross_vectors (zaxis F) (_xaxis F) /\
    0 < dot_vectors (_yaxis F) y.
Proof.
  intros H. destruct (Frame_init_ok o x y H) as [F HF].
  exists F. split; [exact HF |]. apply (Frame_init_axes_aux o x y F HF).
Qed.

Lemma Frame_init_axes_witness :
  exists F,
    Frame_init (mkVec 1 1 1) (mkVec 2 0 0) (mkVec 1 1 0) = inr F /\
    _point F = mkVec 1 1 1 /\
    _xaxis F = normalized (mkVec 2 0 0) /\
    zaxis F = normalized (cross_vectors (mkVec 2 0 0) (mkVec 1 1 0)) /\
    _yaxis F = cross_vectors (zaxis F) (_xaxis F) /\
    0 < dot_vectors (_yaxis F) (mkVec 1 1 0).
Proof.
  apply (Frame_init_axes (mkVec 1 1 1) (mkVec 2 0 0) (mkVec 1 1 0)).
  unfold non_degenerate. intros H. apply (f_equal vz) in H. vec_cbv. lra.
Defined.

(** X3.  Only the directions of the input axes matter: for input axes
    that are not parallel, scaling each of them by a positive factor does
    not change the frame the constructor returns. *)
Theorem Frame_init_scale_invariant (o x y : Vec) (a b : R) :
  non_degenerate x y -> 0 < a -> 0 < b ->
  exists F,
    Frame_init o x y = inr F /\
    Frame_init o (scale_vector x a) (scale_vector y b) = inr F.
Proof.
  intros E Ha Hb.
  assert (Ec : cross_vectors (scale_vector x a) (scale_vector y b) =
               scale_vector (cross_vectors x y) (a * b)).
  { rewrite cross_scale_l, cross_scale_r, scale_scale. f_equal. ring. }
  assert (Hab : 0 < a * b) by (apply Rmult_lt_0_compat; assumption).
  assert (H' : non_degenerate (scale_vector x a) (scale_vector y b)).
  { unfold non_degenerate. rewrite Ec. apply scale_nonzero; [lra | exact E]. }
  eexists. split; [apply (Frame_init_explicit o x y E) |].
  rewrite (Frame_init_explicit o _ _ H').
  rewrite Ec, !normalized_scale; try assumption.
  - reflexivity.
  - apply (non_degenerate_l _ _ E).
Qed.

Lemma Frame_init_scale_invariant_witness :
  exists F,
    Frame_init (mkVec 0 0 0) (mkVec 1 0 0) (mkVec 1 1 0) = inr F /\
    Frame_init (mkVec 0 0 0) (scale_vector (mkVec 1 0 0) 2)
      (scale_vector (mkVec 1 1 0) 3) = inr F.
Proof.
  apply (Frame_init_scale_invariant (mkVec 0 0 0) (mkVec 1 0 0) (mkVec 1 1 0) 2 3);
    try lra.
  unfold non_degenerate. intros H. apply (f_equal vz) in H. vec_cbv. lra.
Defined.

Lemma copy_fixed (F : Frame) : orthonormal F -> copy F = inr F.
Proof.
  intros (Hx & Hy & Hxy). unfold copy.
  rewrite (Frame_init_orthonormal _ _ _ Hx Hy Hxy). destruct F; reflexivity.
Qed.

(** X4.  [copy] of a frame with orthonormal axes returns a frame with the
    same origin and axes. *)
Theorem copy_orthonormal (F : Frame) : orthonormal F -> copy F = inr F.
Proof.
  intros (Hx & Hy & Hxy). unfold copy.
  rewrite (Frame_init_orthonormal _ _ _ Hx Hy Hxy). destruct F; reflexivity.
Qed.

Lemma world_xy_orthonormal : orthonormal world_xy.
Proof.
  repeat split; cbn [world_xy _xaxis _yaxis].
  - apply length_one; vec_cbv; ring.
  - apply length_one; vec_cbv; ring.
  - vec_cbv; ring.
Qed.

Lemma copy_orthonormal_witness : copy world_xy = inr world_xy.
Proof. apply copy_orthonormal. exact world_xy_orthonormal. Defined.

(** ** Factories *)

Lemma cross_cross_cross (x v : Vec) :
  cross_vectors x (cross_vectors (cross_vectors x v) x) =
  scale_vector (cross_vectors x v) (dot_vectors x x).
Proof. destruct x as [a b c], v as [d e f]. vec_cbv. apply Vec_eq; ring. Qed.

(** X5.  [from_points(p, px, pxy)] on three points that are not on a line
    returns a frame with orthonormal axes whose origin is [p], whose x-axis
    is the unit vector from [p] to [px], and whose xy-plane contains
    [pxy] on the side of positive y: the offset of [pxy] from [p] is
    orthogonal to the normal and has a positive scalar product with the
    y-axis. *)
Theorem from_points_frame (p px pxy : Point) :
  cross_vectors (subtract_vectors px p) (subtract_vectors pxy p) <> zero_vector ->
  exists F,
    from_points p px pxy = inr F /\
    orthonormal F /\
    _point F = p /\
    _xaxis F = normalized (subtract_vectors px p) /\
    dot_vectors (zaxis F) (subtract_vectors pxy p) = 0 /\
    0 < dot_vectors (_yaxis F) (subtract_vectors pxy p).
Proof.
  intros H. unfold from_points.
  set (x := subtract_vectors px p) in *. set (v := subtract_vectors pxy p) in *.
  pose proof (non_degenerate_l x v H) as Hx.
  assert (Hxx : 0 < dot_vectors x x).
  { pose proof (length_pos x Hx). rewrite <- length_sqr. nra. }
  assert (Hnd : non_degenerate x (cross_vectors (cross_vectors x v) x)).
  { unfold non_degenerate. rewrite cross_cross_cross.
    apply scale_nonzero; [lra | exact H]. }
  destruct (Frame_init_ok p x _ Hnd) as [F HF]. exists F.
  destruct (Frame_init_inv _ _ _ _ HF) as [Ho Hp].
  destruct (Frame_init_axes_aux _ _ _ _ HF) as (_ & Hxa & Hz & Hy & Hpos).
  repeat split; try assumption; try apply Ho.
  - rewrite Hz, cross_cross_cross, normalized_scale by assumption.
    rewrite normalized_dot, cross_orth_r. ring.
  - rewrite cross_cross_l in Hpos.
    assert (Hyx : dot_vectors (_yaxis F) x = 0).
    { destruct Ho as (Lx & _ & Hxy). rewrite Hxa, normalized_dot in Hxy.
      pose proof (length_pos x Hx) as Lp.
      rewrite dot_comm.
      apply Rmult_integral in Hxy. destruct Hxy as [E | E]; [| exact E].
      exfalso. apply Rinv_neq_0_compat in E; [exact E | lra]. }
    assert (E : dot_vectors (_yaxis F)
                  (subtract_vectors (scale_vector v (dot_vectors x x))
                                    (scale_vector x (dot_vectors x v))) =
                dot_vectors x x * dot_vectors (_yaxis F) v
                - dot_vectors x v * dot_vectors (_yaxis F) x).
    { generalize (dot_vectors x x), (dot_vectors x v). intros s t.
      destruct (_yaxis F), x, v. vec_cbv. ring. }
    rewrite E, Hyx in Hpos. nra.
Qed.

Lemma from_points_frame_witness :
  exists F,
    from_points (mkVec 1 1 1) (mkVec 2 1 1) (mkVec 1 2 1) = inr F /\
    orthonormal F /\
    _point F = mkVec 1 1 1 /\
    _xaxis F = normalized (subtract_vectors (mkVec 2 1 1) (mkVec 1 1 1)) /\
    dot_vectors (zaxis F) (subtract_vectors (mkVec 1 2 1) (mkVec 1 1 1)) = 0 /\
    0 < dot_vectors (_yaxis F) (subtract_vectors (mkVec 1 2 1) (mkVec 1 1 1)).
Proof.
  apply from_points_frame. vec_cbv. intros H. injection H as _ _ H. lra.
Defined.

(** X6.  [from_points] on three points of one line (also when two of
    them coincide) raises the error of the normalisation and returns no
    frame. *)
Theorem from_points_collinear (p px pxy : Point) :
  cross_vectors (subtract_vectors px p) (subtract_vectors pxy p) = zero_vector ->
  from_points p px pxy = inl DegenerateInputError.
Proof.
  intros H. unfold from_points. apply Frame_init_degenerate.
  intros Hnd. apply Hnd. rewrite cross_cross_cross, H.
  vec_cbv. apply Vec_eq; ring.
Qed.

Lemma from_points_collinear_witness :
  from_points (mkVec 0 0 0) (mkVec 1 1 1) (mkVec 2 2 2) = inl DegenerateInputError.
Proof.
  apply from_points_collinear. vec_cbv. apply Vec_eq; ring.
Defined.




(** ** [transform] on orthonormal frames *)

(** When the images of the two axes are orthonormal the setters store
    them as they are. *)
Lemma transform_explicit (T : Matrix) (F : Frame) :
  length_vector (mat_vec (lin T) (_xaxis F)) = 1 ->
  length_vector (mat_vec (lin T) (_yaxis F)) = 1 ->
  dot_vectors (mat_vec (lin T) (_xaxis F)) (mat_vec (lin T) (_yaxis F)) = 0 ->
  transform T F =
  (inr tt, mkFrame (transform_point T (_point F))
                   (mat_vec (lin T) (_xaxis F)) (mat_vec (lin T) (_yaxis F))).
Proof.
  intros Hx Hy Hxy. rewrite transform_unfold.
  unfold m_bind, set_point, set_xaxis, set_yaxis, xaxis_value, bind, ret.
  cbn [_point _xaxis _yaxis].
  rewrite (unitize_unit _ Hx). cbn iota beta. cbn [_point _xaxis _yaxis].
  rewrite (yaxis_value_orthonormal _ _ Hx Hy Hxy).
  reflexivity.
Qed.

Lemma rigid_images (T : Matrix) (F : Frame) :
  rigid T -> orthonormal F ->
  length_vector (mat_vec (lin T) (_xaxis F)) = 1 /\
  length_vector (mat_vec (lin T) (_yaxis F)) = 1 /\
  dot_vectors (mat_vec (lin T) (_xaxis F)) (mat_vec (lin T) (_yaxis F)) = 0.
Proof.
  intros HT (Hx & Hy & Hxy). apply length_one_dot in Hx, Hy.
  repeat split; [apply length_one | apply length_one |];
    rewrite (rigid_dot T _ _ HT); assumption.
Qed.

Lemma transform_rigid_aux (T : Matrix) (F : Frame) :
  rigid T -> orthonormal F ->
  transform T F =
  (inr tt, mkFrame (transform_point T (_point F))
                   (mat_vec (lin T) (_xaxis F)) (mat_vec (lin T) (_yaxis F))).
Proof.
  intros HT HF. destruct (rigid_images T F HT HF) as (Hx & Hy & Hxy).
  apply transform_explicit; assumption.
Qed.

(** X8.  A rigid transformation moves a frame with orthonormal axes as a
    whole: [transform(T)] returns normally, the new origin is the image of
    the origin and the new axes are the images of the axes under the
    rotation of [T], without any adjustment. *)
Theorem transform_rigid (T : Matrix) (F : Frame) :
  rigid T -> orthonormal F ->
  transform T F =
  (inr tt, mkFrame (transform_point T (_point F))
                   (mat_vec (lin T) (_xaxis F)) (mat_vec (lin T) (_yaxis F))).
Proof. apply transform_rigid_aux. Qed.

Lemma identity_rigid : rigid (mkMatrix identity3 zero_vector).
Proof.
  split; cbn [lin]; vec_cbv; [apply Mat3_eq; apply Vec_eq; ring | ring].
Qed.

(** The rotation about the z-axis with cosine 3/5 and sine 4/5, followed
    by the shift (1, 2, 3), is rigid. *)
Lemma rotation_3_4_5_rigid :
  rigid (mkMatrix (mkMat3 (mkVec (3 / 5) (- 4 / 5) 0) (mkVec (4 / 5) (3 / 5) 0)
                          (mkVec 0 0 1))
                  (mkVec 1 2 3)).
Proof.
  split; cbn [lin]; vec_cbv; [apply Mat3_eq; apply Vec_eq; field | field].
Qed.

Lemma transform_rigid_witness :
  transform (mkMatrix (mkMat3 (mkVec (3 / 5) (- 4 / 5) 0) (mkVec (4 / 5) (3 / 5) 0)
                              (mkVec 0 0 1))
                      (mkVec 1 2 3))
    (mkFrame (mkVec 1 1 1) (mkVec 0 1 0) (mkVec 0 0 1)) =
  (inr tt,
   mkFrame
     (transform_point
        (mkMatrix (mkMat3 (mkVec (3 / 5) (- 4 / 5) 0) (mkVec (4 / 5) (3 / 5) 0)
                          (mkVec 0 0 1))
                  (mkVec 1 2 3))
        (mkVec 1 1 1))
     (mat_vec (mkMat3 (mkVec (3 / 5) (- 4 / 5) 0) (mkVec (4 / 5) (3 / 5) 0)
                      (mkVec 0 0 1))
              (mkVec 0 1 0))
     (mat_vec (mkMat3 (mkVec (3 / 5) (- 4 / 5) 0) (mkVec (4 / 5) (3 / 5) 0)
                      (mkVec 0 0 1))
              (mkVec 0 0 1))) /\
  transform_point
    (mkMatrix (mkMat3 (mkVec (3 / 5) (- 4 / 5) 0) (mkVec (4 / 5) (3 / 5) 0)
                      (mkVec 0 0 1))
              (mkVec 1 2 3))
    (mkVec 1 1 1) = mkVec (4 / 5) (17 / 5) 4 /\
  mat_vec (mkMat3 (mkVec (3 / 5) (- 4 / 5) 0) (mkVec (4 / 5) (3 / 5) 0) (mkVec 0 0 1))
          (mkVec 0 1 0) = mkVec (- 4 / 5) (3 / 5) 0.
Proof.
  split; [| split].
  - apply (transform_rigid
             (mkMatrix (mkMat3 (mkVec (3 / 5) (- 4 / 5) 0) (mkVec (4 / 5) (3 / 5) 0)
                               (mkVec 0 0 1))
                       (mkVec 1 2 3))
             (mkFrame (mkVec 1 1 1) (mkVec 0 1 0) (mkVec 0 0 1))).
    + exact rotation_3_4_5_rigid.
    + repeat split; cbn [_xaxis _yaxis].
      * apply length_one; vec_cbv; ring.
      * apply length_one; vec_cbv; ring.
      * vec_cbv; ring.
  - vec_cbv. apply Vec_eq; field.
  - vec_cbv. apply Vec_eq; field.
Defined.

(** X9.  Transforming by [T1] and then by [T2] is transforming by the
    product [T2 * T1], for rigid transformations on a frame with
    orthonormal axes. *)
Theorem transform_compose (T1 T2 : Matrix) (F F1 : Frame) :
  rigid T1 -> rigid T2 -> orthonormal F ->
  transform T1 F = (inr tt, F1) ->
  transform T2 F1 = transform (multiply_matrices T2 T1) F.
Proof.
  intros H1 H2 HF E1.
  rewrite (transform_rigid_aux T1 F H1 HF) in E1. injection E1 as <-.
  destruct (rigid_images T1 F H1 HF) as (Hx & Hy & Hxy).
  assert (HF1 : orthonormal (mkFrame (transform_point T1 (_point F))
                   (mat_vec (lin T1) (_xaxis F)) (mat_vec (lin T1) (_yaxis F)))).
  { repeat split; assumption. }
  rewrite (transform_rigid_aux T2 _ H2 HF1). cbn [_point _xaxis _yaxis].
  destruct (rigid_images T2 _ H2 HF1) as (Hx2 & Hy2 & Hxy2).
  cbn [_xaxis _yaxis] in Hx2, Hy2, Hxy2.
  rewrite transform_explicit.
  - unfold multiply_matrices. cbn [lin]. rewrite !mat_vec_mul.
    do 2 f_equal. unfold transform_point. cbn [lin translation].
    rewrite mat_vec_mul.
    destruct (mat_vec (lin T1) (_point F)), (translation T1), (translation T2),
      (lin T2) as [[? ? ?] [? ? ?] [? ? ?]].
    vec_cbv. apply Vec_eq; ring.
  - unfold multiply_matrices. cbn [lin]. rewrite mat_vec_mul. exact Hx2.
  - unfold multiply_matrices. cbn [lin]. rewrite mat_vec_mul. exact Hy2.
  - unfold multiply_matrices. cbn [lin]. rewrite !mat_vec_mul. exact Hxy2.
Qed.

Lemma transform_compose_witness :
  transform (mkMatrix identity3 (mkVec 0 0 1))
    (mkFrame (transform_point (mkMatrix identity3 (mkVec 1 0 0)) (_point world_xy))
             (mat_vec identity3 (_xaxis world_xy))
             (mat_vec identity3 (_yaxis world_xy))) =
  transform (multiply_matrices (mkMatrix identity3 (mkVec 0 0 1))
                               (mkMatrix identity3 (mkVec 1 0 0))) world_xy.
Proof.
  assert (R : forall t, rigid (mkMatrix identity3 t)).
  { intros t. split; cbn [lin]; vec_cbv; [apply Mat3_eq; apply Vec_eq; ring | ring]. }
  apply (transform_compose (mkMatrix identity3 (mkVec 1 0 0))
           (mkMatrix identity3 (mkVec 0 0 1)) world_xy).
  - apply R.
  - apply R.
  - exact world_xy_orthonormal.
  - apply transform_rigid_aux; [apply R | exact world_xy_orthonormal].
Defined.

(** X10.  The world XY frame transformed by the matrix of a frame [F] with
    orthonormal axes is [F]. *)
Theorem transform_world_xy (F : Frame) :
  orthonormal F ->
  transform (matrix_from_frame F) world_xy = (inr tt, F).
Proof.
  intros (Hx & Hy & Hxy).
  assert (Ex : mat_vec (lin (matrix_from_frame F)) (_xaxis world_xy) = _xaxis F).
  { destruct F as [o [? ? ?] [? ? ?]]. unfold world_xy. vec_cbv. apply Vec_eq; ring. }
  assert (Ey : mat_vec (lin (matrix_from_frame F)) (_yaxis world_xy) = _yaxis F).
  { destruct F as [o [? ? ?] [? ? ?]]. unfold world_xy. vec_cbv. apply Vec_eq; ring. }
  rewrite transform_explicit; rewrite ?Ex, ?Ey; try assumption.
  do 2 f_equal. destruct F as [[? ? ?] [? ? ?] [? ? ?]]. unfold world_xy. vec_cbv.
  f_equal. apply Vec_eq; ring.
Qed.

Lemma transform_world_xy_witness :
  transform (matrix_from_frame (mkFrame (mkVec 1 2 3) (mkVec 0 1 0) (mkVec 0 0 1)))
    world_xy = (inr tt, mkFrame (mkVec 1 2 3) (mkVec 0 1 0) (mkVec 0 0 1)).
Proof.
  apply transform_world_xy. repeat split; cbn [_xaxis _yaxis].
  - apply length_one; vec_cbv; ring.
  - apply length_one; vec_cbv; ring.
  - vec_cbv; ring.
Defined.

(** ** The matrix of a frame and its inverse *)

Lemma frame_matrix_orthogonal (F : Frame) :
  orthonormal F ->
  mat_mul (transpose (lin (matrix_from_frame F))) (lin (matrix_from_frame F)) = identity3.
Proof.
  intros HF. destruct (orthonormal_right_handed F HF) as (Hz & Hxz & Hyz & _).
  destruct HF as (Hx & Hy & Hxy).
  apply length_one_dot in Hx, Hy, Hz. rewrite dot_comm in Hxz, Hyz.
  destruct F as [o [a b c] [d e f]].
  unfold matrix_from_frame in *. vec_cbv.
  apply Mat3_eq; apply Vec_eq; lra.
Qed.

Lemma frame_matrix_left (F : Frame) (v : Vec) :
  orthonormal F ->
  mat_vec (transpose (lin (matrix_from_frame F))) (mat_vec (lin (matrix_from_frame F)) v) = v.
Proof.
  intros HF. rewrite <- mat_vec_mul, (frame_matrix_orthogonal F HF).
  apply mat_vec_identity.
Qed.

Lemma mat_vec_subtract (A : Mat3) (u w : Vec) :
  mat_vec A (subtract_vectors u w) = subtract_vectors (mat_vec A u) (mat_vec A w).
Proof.
  destruct A as [[? ? ?] [? ? ?] [? ? ?]], u, w. vec_cbv. apply Vec_eq; ring.
Qed.

(** The inverse of an affine map whose rotation block [M] satisfies
    [M^T M = 1] maps [p] to [M^T (p - t)]. *)
Lemma inverse_isometry (T Ti : Matrix) (p : Point) :
  (forall v, mat_vec (transpose (lin T)) (mat_vec (lin T) v) = v) ->
  inverse T = inr Ti ->
  transform_point Ti p = mat_vec (transpose (lin T)) (subtract_vectors p (translation T)).
Proof.
  intros HM HTi. pose proof (inverse_apply T Ti p HTi) as E.
  rewrite <- (HM (transform_point Ti p)). f_equal.
  revert E. unfold transform_point at 1.
  generalize (mat_vec (lin T) (transform_point Ti p)). intros q E.
  rewrite <- E. destruct q, (translation T). vec_cbv. apply Vec_eq; ring.
Qed.

Lemma inverse_isometry_lin (T Ti : Matrix) (v : Vec) :
  (forall v, mat_vec (transpose (lin T)) (mat_vec (lin T) v) = v) ->
  inverse T = inr Ti ->
  mat_vec (lin Ti) v = mat_vec (transpose (lin T)) v.
Proof.
  intros HM HTi.
  pose proof (inverse_isometry T Ti v HM HTi) as E1.
  pose proof (inverse_isometry T Ti zero_vector HM HTi) as E0.
  rewrite mat_vec_subtract in E1, E0. unfold transform_point in E1, E0.
  rewrite mat_vec_zero in E0.
  revert E1 E0.
  generalize (mat_vec (lin Ti) v), (translation Ti),
    (mat_vec (transpose (lin T)) v), (mat_vec (transpose (lin T)) (translation T)).
  intros [? ? ?] [? ? ?] [? ? ?] [? ? ?] E1 E0. vec_cbv.
  injection E1 as ? ? ?. injection E0 as ? ? ?. apply Vec_eq; lra.
Qed.

Lemma isometry_right (T Ti : Matrix) (v : Vec) :
  (forall v, mat_vec (transpose (lin T)) (mat_vec (lin T) v) = v) ->
  inverse T = inr Ti ->
  mat_vec (lin T) (mat_vec (transpose (lin T)) v) = v.
Proof.
  intros HM HTi.
  pose proof (inverse_apply T Ti (add_vectors v (translation T)) HTi) as E.
  rewrite (inverse_isometry T Ti _ HM HTi) in E.
  replace (subtract_vectors (add_vectors v (translation T)) (translation T)) with v in E
    by (destruct v, (translation T); vec_cbv; apply Vec_eq; ring).
  revert E. unfold transform_point.
  generalize (mat_vec (lin T) (mat_vec (transpose (lin T)) v)). intros q E.
  destruct q, v, (translation T). vec_cbv. injection E as ? ? ?. apply Vec_eq; lra.
Qed.

Lemma dot_transpose (A : Mat3) (u w : Vec) :
  dot_vectors (mat_vec (transpose A) u) w = dot_vectors u (mat_vec A w).
Proof.
  destruct A as [[? ? ?] [? ? ?] [? ? ?]], u, w. vec_cbv. ring.
Qed.

Lemma frame_inverse_returns (F : Frame) :
  orthonormal F -> exists Ti, inverse (matrix_from_frame F) = inr Ti.
Proof.
  intros HF. unfold inverse.
  destruct (Req_dec_T (det3 (lin (matrix_from_frame F))) 0) as [E | _].
  - rewrite (det_frame_matrix F HF) in E. lra.
  - eexists. reflexivity.
Qed.

(** The transposed matrix of a frame preserves scalar products. *)
Lemma frame_transpose_dot (F : Frame) (u w : Vec) :
  orthonormal F ->
  dot_vectors (mat_vec (transpose (lin (matrix_from_frame F))) u)
              (mat_vec (transpose (lin (matrix_from_frame F))) w) = dot_vectors u w.
Proof.
  intros HF. destruct (frame_inverse_returns F HF) as [Ti HTi].
  rewrite dot_transpose.
  rewrite (isometry_right _ Ti w (fun v => frame_matrix_left F v HF) HTi).
  reflexivity.
Qed.

(** X11.  Local and global re-expression of frames are inverse to each
    other: for frames [F] and [G] with orthonormal axes, expressing [G] in
    the local coordinates of [F] returns a frame with orthonormal axes, and
    expressing that frame in global coordinates returns [G]; likewise the
    other way round. *)
Theorem frame_local_global_round_trip (F G : Frame) :
  orthonormal F -> orthonormal G ->
  (exists L, represent_frame_in_local_coordinates F G = inr L /\
             orthonormal L /\
             represent_frame_in_global_coordinates F L = inr G) /\
  (exists W, represent_frame_in_global_coordinates F G = inr W /\
             orthonormal W /\
             represent_frame_in_local_coordinates F W = inr G).
Proof.
  intros HF HG.
  destruct (frame_inverse_returns F HF) as [Ti HTi].
  pose proof (fun v => frame_matrix_left F v HF) as HM.
  set (T := matrix_from_frame F) in *.
  assert (Himg : forall H : Frame, orthonormal H ->
            length_vector (mat_vec (lin T) (_xaxis H)) = 1 /\
            length_vector (mat_vec (lin T) (_yaxis H)) = 1 /\
            dot_vectors (mat_vec (lin T) (_xaxis H)) (mat_vec (lin T) (_yaxis H)) = 0).
  { intros H (Hx & Hy & Hxy). apply length_one_dot in Hx, Hy.
    assert (Hd : forall u w, dot_vectors (mat_vec (lin T) u) (mat_vec (lin T) w) = dot_vectors u w).
    { intros u w. unfold T. rewrite dot_mat_vec.
      rewrite (frame_matrix_orthogonal F HF), mat_vec_identity. reflexivity. }
    repeat split; [apply length_one | apply length_one |]; rewrite Hd; assumption. }
  assert (Hinv : forall H : Frame, orthonormal H ->
            length_vector (mat_vec (lin Ti) (_xaxis H)) = 1 /\
            length_vector (mat_vec (lin Ti) (_yaxis H)) = 1 /\
            dot_vectors (mat_vec (lin Ti) (_xaxis H)) (mat_vec (lin Ti) (_yaxis H)) = 0).
  { intros H (Hx & Hy & Hxy). apply length_one_dot in Hx, Hy.
    rewrite !(inverse_isometry_lin T Ti _ HM HTi).
    repeat split; [apply length_one | apply length_one |];
      unfold T; rewrite (frame_transpose_dot F _ _ HF); assumption. }
  split.
  - destruct (Hinv G HG) as (Hx & Hy & Hxy).
    unfold represent_frame_in_local_coordinates, bind. fold T. rewrite HTi.
    rewrite (copy_fixed G HG). unfold returning.
    rewrite (transform_explicit Ti G Hx Hy Hxy).
    eexists. split; [reflexivity |].
    assert (HL : orthonormal (mkFrame (transform_point Ti (_point G))
                   (mat_vec (lin Ti) (_xaxis G)) (mat_vec (lin Ti) (_yaxis G)))).
    { repeat split; assumption. }
    split; [exact HL |].
    unfold represent_frame_in_global_coordinates, bind. fold T.
    rewrite (copy_fixed _ HL). unfold returning.
    destruct (Himg _ HL) as (Hx' & Hy' & Hxy').
    rewrite (transform_explicit T _ Hx' Hy' Hxy'). cbn [_point _xaxis _yaxis].
    rewrite (inverse_apply T Ti _ HTi).
    rewrite !(inverse_isometry_lin T Ti _ HM HTi).
    rewrite !(isometry_right T Ti _ HM HTi).
    destruct G; reflexivity.
  - destruct (Himg G HG) as (Hx & Hy & Hxy).
    unfold represent_frame_in_global_coordinates, bind. fold T.
    rewrite (copy_fixed G HG). unfold returning.
    rewrite (transform_explicit T G Hx Hy Hxy).
    eexists. split; [reflexivity |].
    assert (HW : orthonormal (mkFrame (transform_point T (_point G))
                   (mat_vec (lin T) (_xaxis G)) (mat_vec (lin T) (_yaxis G)))).
    { repeat split; assumption. }
    split; [exact HW |].
    unfold represent_frame_in_local_coordinates, bind. fold T. rewrite HTi.
    rewrite (copy_fixed _ HW). unfold returning.
    destruct (Hinv _ HW) as (Hx' & Hy' & Hxy').
    rewrite (transform_explicit Ti _ Hx' Hy' Hxy'). cbn [_point _xaxis _yaxis].
    rewrite (inverse_isometry T Ti _ HM HTi).
    rewrite !(inverse_isometry_lin T Ti _ HM HTi).
    rewrite !HM.
    replace (subtract_vectors (transform_point T (_point G)) (translation T))
      with (mat_vec (lin T) (_point G)).
    + rewrite HM. destruct G; reflexivity.
    + unfold transform_point.
      destruct (mat_vec (lin T) (_point G)), (translation T). vec_cbv. apply Vec_eq; ring.
Qed.

Lemma frame_local_global_round_trip_witness :
  (exists L, represent_frame_in_local_coordinates
               (mkFrame (mkVec 1 2 3) (mkVec 0 1 0) (mkVec 0 0 1)) world_xy = inr L /\
             orthonormal L /\
             represent_frame_in_global_coordinates
               (mkFrame (mkVec 1 2 3) (mkVec 0 1 0) (mkVec 0 0 1)) L = inr world_xy) /\
  (exists W, represent_frame_in_global_coordinates
               (mkFrame (mkVec 1 2 3) (mkVec 0 1 0) (mkVec 0 0 1)) world_xy = inr W /\
             orthonormal W /\
             represent_frame_in_local_coordinates
               (mkFrame (mkVec 1 2 3) (mkVec 0 1 0) (mkVec 0 0 1)) W = inr world_xy).
Proof.
  apply frame_local_global_round_trip.
  - repeat split; cbn [_xaxis _yaxis].
    + apply length_one; vec_cbv; ring.
    + apply length_one; vec_cbv; ring.
    + vec_cbv; ring.
  - exact world_xy_orthonormal.
Defined.

(** X12.  For a frame with orthonormal axes, the local coordinates of the
    global point of [q] are [q] again (the round trip in the direction
    global after local is claim C2). *)
Theorem global_local_round_trip (F : Frame) (q : Point) :
  orthonormal F ->
  represent_point_in_local_coordinates F (represent_point_in_global_coordinates F q)
  = inr q.
Proof.
  intros HF. unfold represent_point_in_local_coordinates, bind.
  rewrite (matrix_from_basis_vectors_orthonormal F HF).
  set (R := mkMatrix (lin (matrix_from_frame F)) zero_vector).
  assert (HM : forall v, mat_vec (transpose (lin R)) (mat_vec (lin R) v) = v).
  { intros v. apply frame_matrix_left, HF. }
  destruct (inverse R) as [e | Ti] eqn:ETi.
  - exfalso. unfold inverse in ETi.
    destruct (Req_dec_T (det3 (lin R)) 0) as [E | _]; [| discriminate].
    unfold R in E. cbn [lin] in E. rewrite (det_frame_matrix F HF) in E. lra.
  - unfold ret. f_equal. rewrite (inverse_isometry R Ti _ HM ETi).
    unfold R at 2. cbn [translation].
    unfold represent_point_in_global_coordinates, transform_point.
    change (translation (matrix_from_frame F)) with (_point F).
    replace (subtract_vectors
               (subtract_vectors
                  (add_vectors (mat_vec (lin (matrix_from_frame F)) q) (_point F))
                  (_point F)) zero_vector)
      with (mat_vec (lin R) q).
    + apply HM.
    + unfold R. cbn [lin].
      destruct (mat_vec (lin (matrix_from_frame F)) q), (_point F).
      vec_cbv. apply Vec_eq; ring.
Qed.

Lemma global_local_round_trip_witness :
  represent_point_in_local_coordinates
    (mkFrame (mkVec 1 2 3) (mkVec 0 1 0) (mkVec 0 0 1))
    (represent_point_in_global_coordinates
       (mkFrame (mkVec 1 2 3) (mkVec 0 1 0) (mkVec 0 0 1)) (mkVec 4 5 6))
  = inr (mkVec 4 5 6).
Proof.
  apply global_local_round_trip. repeat split; cbn [_xaxis _yaxis].
  - apply length_one; vec_cbv; ring.
  - apply length_one; vec_cbv; ring.
  - vec_cbv; ring.
Defined.

(** ** Comparison *)

Lemma close_true (tol a b : R) :
  (if Rgt_dec (Rabs (a - b)) tol then false else true) = true <-> within tol a b.
Proof.
  unfold within. destruct (Rgt_dec (Rabs (a - b)) tol) as [H | H]; split; intros E.
  - discriminate.
  - lra.
  - lra.
  - reflexivity.
Qed.

(** [==] holds exactly when the nine coordinates agree within [tol]. *)
Lemma Frame_eq_spec (F G : Frame) (tol : R) :
  Frame_eq F G tol = true <->
  vec_within tol (_point F) (_point G) /\
  vec_within tol (_xaxis F) (_xaxis G) /\
  vec_within tol (_yaxis F) (_yaxis G).
Proof.
  unfold Frame_eq, Frame_iter, coordinates, vec_within.
  cbn [combine forallb fst snd].
  rewrite !andb_true_iff, !close_true. tauto.
Qed.

Lemma within_sym (tol a b : R) : within tol a b -> within tol b a.
Proof. unfold within. rewrite (Rabs_minus_sym b a). tauto. Qed.

Lemma within_triangle (t1 t2 a b c : R) :
  within t1 a b -> within t2 b c -> within (t1 + t2) a c.
Proof.
  unfold within. intros H1 H2.
  replace (a - c) with ((a - b) + (b - c)) by ring.
  eapply Rle_trans; [apply Rabs_triang | lra].
Qed.

Lemma eq_true_iff_bool (b1 b2 : bool) : (b1 = true <-> b2 = true) -> b1 = b2.
Proof. destruct b1, b2; intros [H1 H2]; auto; symmetry; auto. Qed.

(** X13.  The comparison [==] of frames with tolerance [tol] is
    symmetric; a frame equals itself when [tol] is not negative, and no
    frame equals itself under a negative tolerance. *)
Theorem Frame_eq_reflexive_symmetric (F G : Frame) (tol : R) :
  Frame_eq F G tol = Frame_eq G F tol /\
  (0 <= tol -> Frame_eq F F tol = true) /\
  (tol < 0 -> Frame_eq F F tol = false).
Proof.
  repeat split.
  - apply eq_true_iff_bool. rewrite !Frame_eq_spec. unfold vec_within.
    split; intros H; decompose [and] H; repeat split; apply within_sym; assumption.
  - intros Ht. apply Frame_eq_spec. unfold vec_within, within.
    repeat split; rewrite Rminus_diag, Rabs_R0; exact Ht.
  - intros Ht. destruct (Frame_eq F F tol) eqn:E; [| reflexivity].
    apply Frame_eq_spec in E. destruct E as ((E & _) & _). unfold within in E.
    rewrite Rminus_diag, Rabs_R0 in E. lra.
Qed.

Lemma Frame_eq_reflexive_symmetric_witness :
  Frame_eq world_xy world_xy (1 / 100000) = true.
Proof.
  apply (proj1 (proj2 (Frame_eq_reflexive_symmetric world_xy world_xy (1 / 100000)))).
  lra.
Defined.

(** X14.  The comparison is not transitive but its tolerances add up:
    frames equal within [t1] and [t2] to a common frame are equal within
    [t1 + t2]. *)
Theorem Frame_eq_triangle (F G H : Frame) (t1 t2 : R) :
  Frame_eq F G t1 = true -> Frame_eq G H t2 = true ->
  Frame_eq F H (t1 + t2) = true.
Proof.
  rewrite !Frame_eq_spec. unfold vec_within.
  intros H1 H2. decompose [and] H1. decompose [and] H2.
  repeat split; eapply within_triangle; eassumption.
Qed.

Lemma Frame_eq_triangle_witness :
  Frame_eq (mkFrame (mkVec 0 0 0) (mkVec 1 0 0) (mkVec 0 1 0))
           (mkFrame (mkVec 2 0 0) (mkVec 1 0 0) (mkVec 0 1 0)) (1 + 1) = true.
Proof.
  apply (Frame_eq_triangle _ (mkFrame (mkVec 1 0 0) (mkVec 1 0 0) (mkVec 0 1 0)) _ 1 1);
    apply Frame_eq_spec; unfold vec_within, within; cbn [_point _xaxis _yaxis vx vy vz];
    repeat split;
    match goal with |- Rabs ?x <= _ => unfold Rabs; destruct (Rcase_abs x); lra end.
Defined.

(** ** Data *)

Lemma data_lookup (F : Frame) :
  dict_get (data F) "point"%string = inr (_point F) /\
  dict_get (data F) "xaxis"%string = inr (_xaxis F) /\
  dict_get (data F) "yaxis"%string = inr (_yaxis F).
Proof. repeat split. Qed.

(** X15.  The data of a frame with orthonormal axes gives the frame back:
    [from_data(F.data)] returns [F], and so does assigning the data to any
    other frame. *)
Theorem from_data_round_trip (F G : Frame) :
  orthonormal F ->
  from_data (to_data F) = inr F /\
  set_data (data F) G = (inr tt, F).
Proof.
  intros (Hx & Hy & Hxy).
  assert (E : forall G0, set_data (data F) G0 = (inr tt, F)).
  { intros G0. unfold set_data, m_bind, set_point, set_xaxis, set_yaxis,
      xaxis_value, bind, ret.
    destruct (data_lookup F) as (-> & -> & ->). cbn [_point _xaxis _yaxis].
    rewrite (unitize_unit _ Hx). cbn iota beta. cbn [_point _xaxis _yaxis].
    rewrite (yaxis_value_orthonormal _ _ Hx Hy Hxy). destruct F; reflexivity. }
  split; [| apply E].
  unfold from_data, to_data, bind. rewrite worldXY_returns.
  unfold returning. rewrite E. reflexivity.
Qed.

Lemma from_data_round_trip_witness :
  from_data (to_data world_xy) = inr world_xy /\
  set_data (data world_xy) (mkFrame (mkVec 1 2 3) (mkVec 0 1 0) (mkVec 0 0 1)) =
    (inr tt, world_xy).
Proof. apply from_data_round_trip. exact world_xy_orthonormal. Defined.

(** X16.  Assigning data is not atomic: when the dictionary has a point
    and a non-zero x-axis but no key ['yaxis'], the assignment raises
    [KeyError] after it has replaced the origin and the x-axis; when
    ['point'] is missing it raises [KeyError] and leaves the frame as it
    is. *)
Theorem set_data_missing_key (d : dict) (F : Frame) (p x : Vec) :
  (dict_get d "point"%string = inl KeyError -> set_data d F = (inl KeyError, F)) /\
  (dict_get d "point"%string = inr p ->
   dict_get d "xaxis"%string = inr x ->
   x <> zero_vector ->
   dict_get d "yaxis"%string = inl KeyError ->
   set_data d F = (inl KeyError, mkFrame p (normalized x) (_yaxis F))).
Proof.
  split.
  - intros E. unfold set_data, m_bind. rewrite E. reflexivity.
  - intros Ep Ex Hx Ey. unfold set_data, m_bind, set_point, set_xaxis, xaxis_value, bind.
    rewrite Ep, Ex, (unitize_normalized x Hx), Ey. reflexivity.
Qed.

Lemma set_data_missing_key_witness :
  set_data [("point"%string, mkVec 1 2 3); ("xaxis"%string, mkVec 0 2 0)] world_xy =
  (inl KeyError, mkFrame (mkVec 1 2 3) (normalized (mkVec 0 2 0)) (_yaxis world_xy)).
Proof.
  apply (proj2 (set_data_missing_key
                  [("point"%string, mkVec 1 2 3); ("xaxis"%string, mkVec 0 2 0)]
                  world_xy (mkVec 1 2 3) (mkVec 0 2 0))).
  - reflexivity.
  - reflexivity.
  - intros H. unfold zero_vector in H. injection H as H. lra.
  - reflexivity.
Defined.

(** ** Indexed access and the setters *)

(** X17.  Reading an index back after an assignment: [F[0] = v] makes
    [F[0]] return [v]; [F[1] = v] for a non-zero [v] makes [F[1]] return
    the unit vector of [v], not [v]; both leave the other two entries as
    they were, and reading any key outside 0, 1, 2 raises [KeyError]. *)
Theorem setitem_getitem (F : Frame) (v : Vec) :
  (forall F', setitem 0 v F = (inr tt, F') ->
     getitem 0 F' = inr v /\ getitem 1 F' = getitem 1 F /\ getitem 2 F' = getitem 2 F) /\
  (v <> zero_vector -> forall F', setitem 1 v F = (inr tt, F') ->
     getitem 1 F' = inr (normalized v) /\
     getitem 0 F' = getitem 0 F /\ getitem 2 F' = getitem 2 F) /\
  (forall key : Z, key <> 0%Z -> key <> 1%Z -> key <> 2%Z ->
     getitem key F = inl KeyError).
Proof.
  repeat split.
  - unfold setitem, m_bind, set_point in H. cbn [Z.eqb] in H. injection H as <-.
    reflexivity.
  - unfold setitem, m_bind, set_point in H. cbn [Z.eqb] in H. injection H as <-.
    reflexivity.
  - unfold setitem, m_bind, set_point in H. cbn [Z.eqb] in H. injection H as <-.
    reflexivity.
  - unfold setitem, m_bind, set_xaxis in H0. cbn [Z.eqb Pos.eqb] in H0.
    rewrite (xaxis_value_ok v H) in H0. injection H0 as <-. reflexivity.
  - unfold setitem, m_bind, set_xaxis in H0. cbn [Z.eqb Pos.eqb] in H0.
    rewrite (xaxis_value_ok v H) in H0. injection H0 as <-. reflexivity.
  - unfold setitem, m_bind, set_xaxis in H0. cbn [Z.eqb Pos.eqb] in H0.
    rewrite (xaxis_value_ok v H) in H0. injection H0 as <-. reflexivity.
  - intros key H0 H1 H2. unfold getitem.
    destruct (Z.eqb_spec key 0); [contradiction |].
    destruct (Z.eqb_spec key 1); [contradiction |].
    destruct (Z.eqb_spec key 2); [contradiction |].
    reflexivity.
Qed.

Lemma setitem_getitem_witness :
  getitem 1 (mkFrame (_point world_xy) (normalized (mkVec 0 0 2)) (_yaxis world_xy)) =
    inr (normalized (mkVec 0 0 2)) /\
  getitem 0 (mkFrame (_point world_xy) (normalized (mkVec 0 0 2)) (_yaxis world_xy)) =
    getitem 0 world_xy /\
  getitem 2 (mkFrame (_point world_xy) (normalized (mkVec 0 0 2)) (_yaxis world_xy)) =
    getitem 2 world_xy.
Proof.
  assert (Hv : mkVec 0 0 2 <> zero_vector).
  { intros H. injection H as H. lra. }
  apply (proj1 (proj2 (setitem_getitem world_xy (mkVec 0 0 2))) Hv).
  unfold setitem, m_bind, set_xaxis. cbn [Z.eqb Pos.eqb].
  rewrite (xaxis_value_ok _ Hv). reflexivity.
Defined.

Lemma set_axes_returning (F : Frame) (v w : Vec) :
  returning (set_xaxis v ;; set_yaxis w)%method F = Frame_init (_point F) v w.
Proof.
  rewrite Frame_init_unfold.
  unfold returning, m_bind, set_xaxis, set_yaxis, bind, ret.
  destruct (xaxis_value v) as [e | x]; [reflexivity |].
  cbn [_point _xaxis _yaxis].
  destruct (yaxis_value x w) as [e | y]; reflexivity.
Qed.

(** X18.  Assigning the x-axis and then the y-axis repairs any frame:
    whatever the stored axes of [F] (also not orthogonal ones), the
    assignments [F.xaxis = v; F.yaxis = w] with [v], [w] not parallel
    return normally and leave the frame that [Frame(F.point, v, w)]
    constructs, with orthonormal axes and the origin of [F]. *)
Theorem set_axes_as_constructor (F : Frame) (v w : Vec) :
  non_degenerate v w ->
  exists F',
    (set_xaxis v ;; set_yaxis w)%method F = (inr tt, F') /\
    Frame_init (_point F) v w = inr F' /\
    orthonormal F' /\ _point F' = _point F.
Proof.
  intros H. destruct (Frame_init_ok (_point F) v w H) as [F' HF'].
  exists F'. destruct (Frame_init_inv _ _ _ _ HF') as [Ho Hp].
  repeat split; try assumption; try apply Ho.
  pose proof (set_axes_returning F v w) as E. rewrite HF' in E.
  unfold returning in E.
  destruct ((set_xaxis v ;; set_yaxis w)%method F) as [[e | []] F'']; [discriminate |].
  injection E as ->. reflexivity.
Qed.

Lemma set_axes_as_constructor_witness :
  exists F',
    (set_xaxis (mkVec 0 2 0) ;; set_yaxis (mkVec 1 1 0))%method
      (mkFrame (mkVec 1 2 3) (mkVec 0 1 0) (mkVec 0 1 0)) = (inr tt, F') /\
    Frame_init (_point (mkFrame (mkVec 1 2 3) (mkVec 0 1 0) (mkVec 0 1 0)))
      (mkVec 0 2 0) (mkVec 1 1 0) = inr F' /\
    orthonormal F' /\
    _point F' = _point (mkFrame (mkVec 1 2 3) (mkVec 0 1 0) (mkVec 0 1 0)).
Proof.
  apply set_axes_as_constructor.
  unfold non_degenerate. vec_cbv. intros H. injection H as _ _ H. lra.
Defined.

(** ** [from_list] *)

(** X19.  The matrix [from_list] hands to [from_matrix] is the list of
    values in row-major order: for 16 values its four rows, one after the
    other, are the values; for 12 values they are the values followed by
    the row [0, 0, 0, 1]. *)
Theorem from_list_row_major
  (from_matrix : list (list R) -> result Frame) (values : list R) :
  (length values = 16%nat ->
   exists M, from_list from_matrix values = from_matrix M /\
             length M = 4%nat /\ concat M = values) /\
  (length values = 12%nat ->
   exists M, from_list from_matrix values = from_matrix M /\
             length M = 4%nat /\ concat M = values ++ [0; 0; 0; 1] /\
             nth 3 M [] = [0; 0; 0; 1]).
Proof.
  split; intros H.
  - exists (rows_4x4 values).
    split; [unfold from_list; rewrite H; cbn [Nat.eqb]; rewrite H; reflexivity |].
    do 17 (destruct values as [| ? values]; try discriminate H).
    split; reflexivity.
  - exists (rows_4x4 (values ++ [0; 0; 0; 1])).
    split; [unfold from_list; rewrite H; cbn [Nat.eqb];
            rewrite length_app, H; reflexivity |].
    do 13 (destruct values as [| ? values]; try discriminate H).
    repeat split; reflexivity.
Qed.

Lemma from_list_row_major_witness :
  exists M,
    from_list (fun _ => ret world_xy) [1; 0; 0; 5; 0; 1; 0; 6; 0; 0; 1; 7] =
      (fun _ => ret world_xy) M /\
    length M = 4%nat /\
    concat M = [1; 0; 0; 5; 0; 1; 0; 6; 0; 0; 1; 7] ++ [0; 0; 0; 1] /\
    nth 3 M [] = [0; 0; 0; 1].
Proof.
  apply (proj2 (from_list_row_major (fun _ => ret world_xy)
                  [1; 0; 0; 5; 0; 1; 0; 6; 0; 0; 1; 7])).
  reflexivity.
Defined.

(** ** [from_plane] *)

(** A frame built from an in-plane x-axis and the cross product of the
    normal with it has the unit normal as z-axis. *)
Lemma Frame_init_normal (o x n : Vec) :
  x <> zero_vector -> n <> zero_vector -> dot_vectors n x = 0 ->
  exists F, Frame_init o x (cross_vectors n x) = inr F /\
            orthonormal F /\ _point F = o /\ normal F = normalized n.
Proof.
  intros Hx Hn Hnx.
  assert (Hxx : 0 < dot_vectors x x).
  { pose proof (length_pos x Hx). rewrite <- length_sqr. nra. }
  assert (Ec : cross_vectors x (cross_vectors n x) = scale_vector n (dot_vectors x x)).
  { transitivity (subtract_vectors (scale_vector n (dot_vectors x x))
                                   (scale_vector x (dot_vectors n x))).
    - destruct x, n. vec_cbv. apply Vec_eq; ring.
    - rewrite Hnx. destruct x, n. vec_cbv. apply Vec_eq; ring. }
  assert (Hnd : non_degenerate x (cross_vectors n x)).
  { unfold non_degenerate. rewrite Ec. apply scale_nonzero; [lra | exact Hn]. }
  destruct (Frame_init_ok o x _ Hnd) as [F HF]. exists F.
  destruct (Frame_init_inv _ _ _ _ HF) as [Ho Hp].
  destruct (Frame_init_axes_aux _ _ _ _ HF) as (_ & _ & Hz & _).
  repeat split; try assumption; try apply Ho.
  change (normal F) with (zaxis F).
  rewrite Hz, Ec. apply normalized_scale; assumption.
Qed.

Lemma Rabs_pos_neq (a : R) : 0 < Rabs a -> a <> 0.
Proof. intros H ->. rewrite Rabs_R0 in H. lra. Qed.

(** X20.  [from_plane] on a plane with a non-zero normal returns a frame
    with orthonormal axes at the point of the plane whose normal is the
    unit vector of the plane's normal, so that both axes lie in the plane;
    on a zero normal it raises [ZeroDivisionError]. *)
Theorem from_plane_normal (plane : Plane) :
  (plane_normal plane <> zero_vector ->
   exists F, from_plane plane = inr F /\
             orthonormal F /\
             _point F = plane_point plane /\
             normal F = normalized (plane_normal plane)) /\
  (plane_normal plane = zero_vector ->
   from_plane plane = inl ZeroDivisionError).
Proof.
  destruct plane as [p [a b c]]. cbn [plane_normal plane_point]. split.
  - intros Hn. unfold from_plane, coordinates, list_max.
    cbn [vx vy vz map fold_left plane_normal plane_point].
    set (n := mkVec a b c) in *.
    set (d := dot_vectors p n).
    set (m := Rmax (Rmax (Rabs a) (Rabs b)) (Rabs c)).
    assert (Ha : Rabs a <= m) by (unfold m; eapply Rle_trans; [apply Rmax_l | apply Rmax_l]).
    assert (Hb : Rabs b <= m) by (unfold m; eapply Rle_trans; [apply Rmax_r | apply Rmax_l]).
    assert (Hc : Rabs c <= m) by (unfold m; apply Rmax_r).
    assert (Hm : 0 < m).
    { destruct (Req_dec_T a 0) as [Ea | Ea];
        [| pose proof (Rabs_pos_lt a Ea); lra].
      destruct (Req_dec_T b 0) as [Eb | Eb];
        [| pose proof (Rabs_pos_lt b Eb); lra].
      destruct (Req_dec_T c 0) as [Ec | Ec];
        [| pose proof (Rabs_pos_lt c Ec); lra].
      exfalso. apply Hn. unfold n. subst. reflexivity. }
    assert (Hcase : m = Rabs a \/ m = Rabs b \/ m = Rabs c).
    { unfold m, Rmax.
      destruct (Rle_dec (Rabs a) (Rabs b)); destruct (Rle_dec _ (Rabs c)); auto. }
    cbn [list_index bind ret].
    destruct (Req_dec_T (Rabs a) m) as [E0 | N0].
    + (* idx = 0 *)
      cbn [bind ret nth]. assert (a <> 0) by (apply Rabs_pos_neq; lra).
      unfold py_div. destruct (Req_dec_T a 0) as [? | _]; [contradiction |].
      cbn [bind ret list_set combine map fst snd].
      unfold point_of_list. cbn [nth].
      apply Frame_init_normal.
      * vec_cbv. intros E. injection E as _ E _. lra.
      * exact Hn.
      * unfold n, sum_list. cbn [fold_right]. vec_cbv. field. assumption.
    + destruct (Req_dec_T (Rabs b) m) as [E1 | N1].
      * (* idx = 1 *)
        cbn [bind ret nth]. assert (b <> 0) by (apply Rabs_pos_neq; lra).
        unfold py_div. destruct (Req_dec_T b 0) as [? | _]; [contradiction |].
        cbn [bind ret list_set combine map fst snd].
        unfold point_of_list. cbn [nth].
        apply Frame_init_normal.
        -- vec_cbv. intros E. injection E as E _ _. lra.
        -- exact Hn.
        -- unfold n, sum_list. cbn [fold_right]. vec_cbv. field. assumption.
      * destruct (Req_dec_T (Rabs c) m) as [E2 | N2].
        -- (* idx = 2 *)
           cbn [bind ret nth]. assert (c <> 0) by (apply Rabs_pos_neq; lra).
           unfold py_div. destruct (Req_dec_T c 0) as [? | _]; [contradiction |].
           cbn [bind ret list_set combine map fst snd].
           unfold point_of_list. cbn [nth].
           apply Frame_init_normal.
           ++ vec_cbv. intros E. injection E as E _ _. lra.
           ++ exact Hn.
           ++ unfold n, sum_list. cbn [fold_right]. vec_cbv. field. assumption.
        -- exfalso. destruct Hcase as [E | [E | E]]; congruence.
  - intros E. injection E as -> -> ->.
    unfold from_plane, coordinates, list_max.
    cbn [vx vy vz map fold_left plane_normal plane_point].
    rewrite Rabs_R0.
    replace (Rmax (Rmax 0 0) 0) with 0
      by (unfold Rmax; destruct (Rle_dec 0 0); [| lra];
          destruct (Rle_dec 0 0); reflexivity).
    cbn [list_index]. destruct (Req_dec_T 0 0) as [_ | N]; [| lra].
    unfold py_div, bind, ret. cbn [nth].
    destruct (Req_dec_T 0 0) as [_ | N]; [reflexivity | lra].
Qed.

Lemma from_plane_normal_witness :
  exists F, from_plane (mkPlane (mkVec 0 0 0) (mkVec 0 0 1)) = inr F /\
            orthonormal F /\
            _point F = plane_point (mkPlane (mkVec 0 0 0) (mkVec 0 0 1)) /\
            normal F = normalized (plane_normal (mkPlane (mkVec 0 0 0) (mkVec 0 0 1))).
Proof.
  apply (proj1 (from_plane_normal (mkPlane (mkVec 0 0 0) (mkVec 0 0 1)))).
  cbn [plane_normal]. unfold zero_vector. intros H. injection H as H. lra.
Defined.

(* ================================================================== *)
(** * Part IV: further properties of the best-fit estimators *)
(* ================================================================== *)

(** ** The plane fit under translation and reordering *)

Lemma sum_vectors_shift (t : Vec) (l : list Vec) :
  sum_vectors (map (fun p => add_vectors p t) l) =
  add_vectors (sum_vectors l) (scale_vector t (INR (length l))).
Proof.
  induction l as [| p l IH].
  - cbn. vec_cbv. apply Vec_eq; ring.
  - cbn [map length]. rewrite !sum_vectors_cons, IH, S_INR.
    destruct p, t, (sum_vectors l). vec_cbv. apply Vec_eq; ring.
Qed.

Lemma centroid_shift (t : Vec) (l : list Vec) :
  l <> [] ->
  centroid (map (fun p => add_vectors p t) l) = add_vectors (centroid l) t.
Proof.
  intros Hl. unfold centroid. rewrite sum_vectors_shift, length_map.
  assert (Hn : INR (length l) <> 0).
  { destruct l; [contradiction |]. cbn [length]. apply not_0_INR. lia. }
  revert Hn. generalize (INR (length l)). intros n Hn.
  destruct (sum_vectors l), t. unfold divide_vector. vec_cbv. apply Vec_eq; field; exact Hn.
Qed.

Lemma covariance_shift (t : Vec) (l : list Vec) :
  l <> [] ->
  covariance (map (fun p => add_vectors p t) l) = covariance l.
Proof.
  intros Hl. unfold covariance. rewrite (centroid_shift t l Hl), length_map, map_map.
  do 2 f_equal. apply map_ext. intros p.
  destruct p, t, (centroid l). vec_cbv. apply Vec_eq; ring.
Qed.

(** X21.  The plane fit follows a translation of the points: shifting
    every point of a non-empty input by [t] shifts the returned point by
    [t] and leaves the returned normal (and any exception) as it is. *)
Theorem bestfit_plane_translation
  (svd : Mat3 -> result (Mat3 * Vec * Mat3)) (points : list Vec) (t : Vec) :
  points <> [] ->
  bestfit_plane_numpy svd (map (fun p => add_vectors p t) points) =
  bind (bestfit_plane_numpy svd points)
       (fun cw => ret (map (fun c => add_vectors c t) (fst cw), snd cw)).
Proof.
  intros Hl. destruct points as [| p [| q l]]; [contradiction | |].
  - cbn [map]. rewrite !bestfit_plane_one_point. reflexivity.
  - assert (Hn : (2 <= length (p :: q :: l))%nat) by (cbn [length]; lia).
    rewrite (bestfit_plane_unfold svd (p :: q :: l) Hn).
    rewrite bestfit_plane_unfold by (rewrite length_map; exact Hn).
    rewrite covariance_shift, centroid_shift by discriminate.
    unfold bind. destruct (svd (covariance (p :: q :: l))) as [e | [[u s] vT]];
      reflexivity.
Qed.

Lemma bestfit_plane_translation_witness :
  bestfit_plane_numpy svd_three_points
    (map (fun p => add_vectors p (mkVec 5 6 7)) three_points) =
  bind (bestfit_plane_numpy svd_three_points three_points)
       (fun cw => ret (map (fun c => add_vectors c (mkVec 5 6 7)) (fst cw), snd cw)).
Proof. apply bestfit_plane_translation. discriminate. Defined.

Lemma add_vectors_comm (u v : Vec) : add_vectors u v = add_vectors v u.
Proof. destruct u, v. vec_cbv. apply Vec_eq; ring. Qed.

Lemma add_vectors_assoc (u v w : Vec) :
  add_vectors u (add_vectors v w) = add_vectors (add_vectors u v) w.
Proof. destruct u, v, w. vec_cbv. apply Vec_eq; ring. Qed.

Lemma mat_add_swap (A B C : Mat3) :
  mat_add A (mat_add B C) = mat_add B (mat_add A C).
Proof.
  destruct A as [[? ? ?] [? ? ?] [? ? ?]], B as [[? ? ?] [? ? ?] [? ? ?]],
    C as [[? ? ?] [? ? ?] [? ? ?]].
  unfold mat_add. vec_cbv. apply Mat3_eq; apply Vec_eq; ring.
Qed.

Lemma sum_vectors_perm (l l' : list Vec) :
  Permutation l l' -> sum_vectors l = sum_vectors l'.
Proof.
  induction 1 as [| p l l' _ IH | p q l | l l' l'' _ IH1 _ IH2].
  - reflexivity.
  - rewrite !sum_vectors_cons, IH. reflexivity.
  - rewrite !sum_vectors_cons, !add_vectors_assoc, (add_vectors_comm q p). reflexivity.
  - congruence.
Qed.

Lemma gram_perm (l l' : list Vec) : Permutation l l' -> gram l = gram l'.
Proof.
  induction 1 as [| p l l' _ IH | p q l | l l' l'' _ IH1 _ IH2].
  - reflexivity.
  - rewrite !gram_cons, IH. reflexivity.
  - rewrite !gram_cons. apply mat_add_swap.
  - congruence.
Qed.

(** X22.  The plane fit does not depend on the order of the points: two
    inputs that are permutations of each other give the same result. *)
Theorem bestfit_plane_permutation
  (svd : Mat3 -> result (Mat3 * Vec * Mat3)) (points points' : list Vec) :
  Permutation points points' ->
  bestfit_plane_numpy svd points = bestfit_plane_numpy svd points'.
Proof.
  intros HP. unfold bestfit_plane_numpy.
  rewrite (Permutation_length HP), (sum_vectors_perm _ _ HP).
  cbn [hd].
  rewrite (gram_perm _ _ (Permutation_map _ HP)). reflexivity.
Qed.

Lemma bestfit_plane_permutation_witness :
  bestfit_plane_numpy svd_three_points three_points =
  bestfit_plane_numpy svd_three_points [mkVec 0 1 0; mkVec 1 0 0; mkVec (-1) 0 0].
Proof.
  apply bestfit_plane_permutation. unfold three_points.
  apply Permutation_sym. apply (Permutation_cons_app [_; _] []). reflexivity.
Defined.

(** ** Singular values and the shape of the point set *)

Lemma covariance_factor_pos (points : list Vec) :
  (2 <= length points)%nat -> 0 < 1 / (INR (length points) - 1).
Proof.
  intros H. apply le_INR in H. cbn [INR] in H. apply Rdiv_lt_0_compat; lra.
Qed.

(** The kernel of the covariance matrix: the directions orthogonal to all
    centered points. *)
Lemma covariance_kernel (points : list Vec) (a : Vec) :
  (2 <= length points)%nat ->
  mat_vec (covariance points) a = zero_vector <->
  (forall p, In p points -> on_plane (centroid points) a p).
Proof.
  intros Hn. pose proof (covariance_factor_pos points Hn) as Hm.
  unfold covariance, on_plane. rewrite mat_vec_scale. split.
  - intros Ha p Hp.
    apply scale_zero_inv in Ha; [| lra].
    assert (Hq : sum_list (map (fun y => dot_vectors y a * dot_vectors y a)
                   (map (fun p => subtract_vectors p (centroid points)) points)) = 0).
    { rewrite <- gram_quadratic, Ha. destruct a; vec_cbv; ring. }
    assert (Hsq : dot_vectors (subtract_vectors p (centroid points)) a
                  * dot_vectors (subtract_vectors p (centroid points)) a = 0).
    { apply (sum_list_nonneg_zero _) with (2 := Hq).
      - intros r Hr. apply in_map_iff in Hr as (z & <- & _). nra.
      - apply in_map_iff. eexists. split; [reflexivity |].
        apply in_map_iff. exists p. split; [reflexivity | exact Hp]. }
    rewrite dot_comm. nra.
  - intros H. rewrite gram_mat_vec, sum_vectors_zero.
    + vec_cbv. apply Vec_eq; ring.
    + intros v Hv. apply in_map_iff in Hv as (y & <- & Hy).
      apply in_map_iff in Hy as (p & <- & Hp).
      rewrite (dot_comm _ a), (H p Hp).
      destruct (subtract_vectors p (centroid points)). vec_cbv. apply Vec_eq; ring.
Qed.

(** The columns of an orthogonal matrix are orthonormal. *)
Lemma orthogonal_cols (M : Mat3) :
  orthogonal M ->
  dot_vectors (col0 M) (col0 M) = 1 /\ dot_vectors (col1 M) (col1 M) = 1 /\
  dot_vectors (col2 M) (col2 M) = 1 /\ dot_vectors (col0 M) (col1 M) = 0.
Proof.
  intros [H _]. destruct M as [[a b c] [d e f] [g h i]].
  unfold identity3 in H. vec_cbv.
  injection H as H1 H2 H3 H4 H5 H6 H7 H8 H9. repeat split; lra.
Qed.

Lemma singular_vector_0 (points : list Vec) (u : Mat3) (s : Vec) (vT : Mat3) :
  is_svd (covariance points) u s vT ->
  mat_vec (covariance points) (row0 vT) = scale_vector (col0 u) (vx s).
Proof.
  intros Hsvd. rewrite (covariance_svd points u s vT Hsvd).
  destruct Hsvd as (_ & HvT & _).
  destruct (orthogonal_rows vT HvT) as (-> & _ & _).
  rewrite mat_vec_diag.
  destruct u as [[? ? ?] [? ? ?] [? ? ?]], s. vec_cbv. apply Vec_eq; ring.
Qed.

Lemma scale_unit_zero (v : Vec) (k : R) :
  dot_vectors v v = 1 -> scale_vector v k = zero_vector -> k = 0.
Proof.
  intros Hv E. apply (f_equal (fun w => dot_vectors w v)) in E.
  rewrite dot_scale_l, Hv in E. replace (dot_vectors zero_vector v) with 0 in E
    by (destruct v; vec_cbv; ring). lra.
Qed.

(** The third singular value of the covariance matrix is 0 exactly when
    the points lie on the plane through the centroid with the third row of
    [vT] as normal, and whenever they lie on some common plane. *)
Lemma singular_value_exact_iff
  (points : list Vec) (u : Mat3) (s : Vec) (vT : Mat3) :
  (2 <= length points)%nat ->
  is_svd (covariance points) u s vT ->
  (vz s = 0 <->
   forall p, In p points -> on_plane (centroid points) (row2 vT) p) /\
  (forall p0 n, n <> zero_vector ->
     (forall p, In p points -> on_plane p0 n p) -> vz s = 0).
Proof.
  intros Hn Hsvd.
  pose proof (singular_vector_2 points u s vT Hsvd) as E2.
  destruct (orthogonal_cols u (proj1 Hsvd)) as (_ & _ & Hc2 & _).
  assert (Hiff : vz s = 0 <->
            forall p, In p points -> on_plane (centroid points) (row2 vT) p).
  { rewrite <- (covariance_kernel points _ Hn), E2. split.
    - intros ->. destruct (col2 u). vec_cbv. apply Vec_eq; ring.
    - apply scale_unit_zero, Hc2. }
  split; [exact Hiff |].
  intros p0 n Hn0 Hplane.
  (* the centroid is on the plane, so [n] is in the kernel *)
  assert (Hc : on_plane p0 n (centroid points)).
  { unfold on_plane, centroid.
    change (divide_vector (sum_vectors points) (INR (length points)))
      with (scale_vector (sum_vectors points) (/ INR (length points))).
    assert (H : dot_vectors n (sum_vectors points) =
                INR (length points) * dot_vectors n p0).
    { rewrite dot_sum_vectors. apply sum_list_const.
      intros p Hp. specialize (Hplane p Hp). unfold on_plane in Hplane.
      destruct n, p, p0; vec_cbv; lra. }
    assert (HN : 0 < INR (length points)) by (apply INR_length_pos; lia).
    replace (dot_vectors n (subtract_vectors
               (scale_vector (sum_vectors points) (/ INR (length points))) p0))
      with (/ INR (length points) * dot_vectors n (sum_vectors points)
            - dot_vectors n p0)
      by (destruct n, (sum_vectors points), p0; vec_cbv; ring).
    rewrite H. field. lra. }
  assert (Hk : mat_vec (covariance points) n = zero_vector).
  { apply (covariance_kernel points n Hn). intros p Hp.
    specialize (Hplane p Hp). unfold on_plane in *.
    destruct n, p, p0, (centroid points); vec_cbv; lra. }
  destruct (Req_dec_T (vz s) 0) as [E | E]; [exact E | exfalso].
  rewrite (covariance_svd points u s vT Hsvd) in Hk.
  destruct Hsvd as (Hu & HvT & H3 & H23 & H12 & _).
  apply (f_equal (mat_vec (transpose u))) in Hk.
  rewrite (orthogonal_left u _ Hu), mat_vec_zero, mat_vec_diag in Hk.
  pose proof (orthogonal_left vT n HvT) as En.
  revert Hk En. generalize (mat_vec vT n). intros [k0 k1 k2] Hk En.
  cbn [vx vy vz] in Hk. unfold zero_vector in Hk. injection Hk as Hk0 Hk1 Hk2.
  assert (k0 = 0) by nra. assert (k1 = 0) by nra. assert (k2 = 0) by nra.
  subst k0 k1 k2. apply Hn0. rewrite <- En. apply mat_vec_zero.
Qed.

(** X23.  The smallest singular value, which [bestfit_plane_numpy] computes
    and drops, tells whether the plane it returns is exact: for at least 2
    points, when [svd] returns a singular value decomposition of the
    covariance matrix, the function returns a point and a normal such that
    the third singular value is 0 if and only if every input point lies on
    the plane through the returned point with the returned normal; and the
    third singular value is 0 whenever the points lie on some common
    plane. *)
Theorem bestfit_plane_exact_iff
  (svd : Mat3 -> result (Mat3 * Vec * Mat3))
  (points : list Vec) (u : Mat3) (s : Vec) (vT : Mat3) :
  (2 <= length points)%nat ->
  svd (covariance points) = inr (u, s, vT) ->
  is_svd (covariance points) u s vT ->
  exists c n,
    bestfit_plane_numpy svd points = inr ([c], n) /\
    (vz s = 0 <-> forall p, In p points -> on_plane c n p) /\
    (forall p0 m, m <> zero_vector ->
       (forall p, In p points -> on_plane p0 m p) -> vz s = 0).
Proof.
  intros Hn E Hsvd. exists (centroid points), (row2 vT).
  split; [eapply bestfit_plane_returns; eassumption |].
  apply (singular_value_exact_iff points u s vT Hn Hsvd).
Qed.

Lemma bestfit_plane_exact_iff_witness :
  exists c n,
    bestfit_plane_numpy svd_three_points three_points = inr ([c], n) /\
    (vz (mkVec 1 (1 / 3) 0) = 0 <-> forall p, In p three_points -> on_plane c n p) /\
    (forall p0 m, m <> zero_vector ->
       (forall p, In p three_points -> on_plane p0 m p) -> vz (mkVec 1 (1 / 3) 0) = 0).
Proof.
  apply (bestfit_plane_exact_iff svd_three_points three_points identity3
           (mkVec 1 (1 / 3) 0) identity3).
  - cbn [three_points length]. lia.
  - reflexivity.
  - exact three_points_svd.
Defined.

Lemma sum_vectors_parallel (d : Vec) (l : list Vec) :
  (forall v, In v l -> exists k, v = scale_vector d k) ->
  exists K, sum_vectors l = scale_vector d K.
Proof.
  induction l as [| v l IH]; intros H.
  - exists 0. cbn. destruct d; vec_cbv. apply Vec_eq; ring.
  - destruct (H v (or_introl eq_refl)) as [k ->].
    destruct IH as [K HK]; [intros; apply H; cbn [In]; auto |].
    exists (k + K). rewrite sum_vectors_cons, HK.
    destruct d; vec_cbv. apply Vec_eq; ring.
Qed.

Lemma sum_vectors_line (a d : Vec) (l : list Vec) :
  (forall p, In p l -> exists t, p = add_vectors a (scale_vector d t)) ->
  exists T, sum_vectors l =
            add_vectors (scale_vector a (INR (length l))) (scale_vector d T).
Proof.
  induction l as [| p l IH]; intros H.
  - exists 0. cbn. destruct a, d; vec_cbv. apply Vec_eq; ring.
  - destruct (H p (or_introl eq_refl)) as [t ->].
    destruct IH as [T HT]; [intros; apply H; cbn [In]; auto |].
    exists (t + T). rewrite sum_vectors_cons, HT. cbn [length]. rewrite S_INR.
    destruct a, d; vec_cbv. apply Vec_eq; ring.
Qed.

(** For points on a line in direction [d] the covariance matrix maps
    every vector to a multiple of [d]. *)
Lemma covariance_line (points : list Vec) :
  points <> [] -> collinear points ->
  exists d, forall x, exists k, mat_vec (covariance points) x = scale_vector d k.
Proof.
  intros Hl (a & d & H). exists d. intros x.
  assert (Hn : INR (length points) <> 0).
  { destruct points; [contradiction |]. cbn [length]. apply not_0_INR. lia. }
  destruct (sum_vectors_line a d points H) as [T HT].
  assert (Hy : forall y, In y (map (fun p => subtract_vectors p (centroid points)) points) ->
                 exists k, y = scale_vector d k).
  { intros y Hy. apply in_map_iff in Hy as (p & <- & Hp).
    destruct (H p Hp) as [t ->]. exists (t - T / INR (length points)).
    unfold centroid. rewrite HT. revert Hn. generalize (INR (length points)).
    intros n Hn. destruct a, d. unfold divide_vector. vec_cbv.
    apply Vec_eq; field; exact Hn. }
  unfold covariance. rewrite mat_vec_scale, gram_mat_vec.
  destruct (sum_vectors_parallel d
              (map (fun y => scale_vector y (dot_vectors y x))
                 (map (fun p => subtract_vectors p (centroid points)) points)))
    as [K HK].
  - intros v Hv. apply in_map_iff in Hv as (y & <- & Hyin).
    destruct (Hy y Hyin) as [k ->]. eexists. rewrite scale_scale. reflexivity.
  - rewrite HK. eexists. rewrite scale_scale. reflexivity.
Qed.

(** X24.  Points on one line leave the plane undetermined, and the fit
    does not notice: for at least 2 collinear points, when [svd] returns a
    singular value decomposition of the covariance matrix, the second and
    the third singular value are 0 and [bestfit_plane_numpy] still returns
    the centroid and a unit normal, without raising. *)
Theorem bestfit_plane_collinear
  (svd : Mat3 -> result (Mat3 * Vec * Mat3))
  (points : list Vec) (u : Mat3) (s : Vec) (vT : Mat3) :
  (2 <= length points)%nat ->
  collinear points ->
  svd (covariance points) = inr (u, s, vT) ->
  is_svd (covariance points) u s vT ->
  vy s = 0 /\ vz s = 0 /\
  bestfit_plane_numpy svd points = inr ([centroid points], row2 vT) /\
  length_vector (row2 vT) = 1.
Proof.
  intros Hn Hcol E Hsvd.
  assert (Hl : points <> []) by (destruct points; [cbn in Hn; lia | discriminate]).
  destruct (covariance_line points Hl Hcol) as [d Hd].
  pose proof (singular_vector_0 points u s vT Hsvd) as E0.
  pose proof (singular_vector_1 points u s vT Hsvd) as E1.
  destruct (orthogonal_cols u (proj1 Hsvd)) as (Hc0 & Hc1 & _ & Hc01).
  destruct (Hd (row0 vT)) as [k0 K0]. destruct (Hd (row1 vT)) as [k1 K1].
  rewrite K0 in E0. rewrite K1 in E1.
  assert (H1 : vy s = 0).
  { destruct Hsvd as (_ & _ & H3 & H23 & H12 & _).
    destruct (Req_dec_T (vy s) 0) as [Z | NZ]; [exact Z | exfalso].
    assert (P0 : vx s * vx s = k0 * k0 * dot_vectors d d).
    { rewrite <- scale_dot_self, E0, scale_dot_self, Hc0. ring. }
    assert (P1 : vy s * vy s = k1 * k1 * dot_vectors d d).
    { rewrite <- scale_dot_self, E1, scale_dot_self, Hc1. ring. }
    assert (P01 : k0 * k1 * dot_vectors d d = 0).
    { transitivity (dot_vectors (scale_vector d k0) (scale_vector d k1)).
      - rewrite dot_scale_l, dot_scale_r. ring.
      - rewrite E0, E1, dot_scale_l, dot_scale_r, Hc01. ring. }
    assert (Q : (vx s * vx s) * (vy s * vy s) = 0).
    { rewrite P0, P1.
      replace (k0 * k0 * dot_vectors d d * (k1 * k1 * dot_vectors d d))
        with ((k0 * k1 * dot_vectors d d) * (k0 * k1 * dot_vectors d d)) by ring.
      rewrite P01. ring. }
    assert (0 < vy s) by lra. assert (0 < vx s) by lra.
    assert (0 < vx s * vx s) by nra. assert (0 < vy s * vy s) by nra. nra. }
  assert (H2 : vz s = 0) by (destruct Hsvd as (_ & _ & ? & ? & _); lra).
  repeat split; try assumption.
  - eapply bestfit_plane_returns; eassumption.
  - apply orthogonal_row2_unit. apply Hsvd.
Qed.

Lemma two_points_collinear : collinear two_points.
Proof.
  exists (mkVec 0 0 0), (mkVec 1 0 0). intros p Hp. unfold two_points in Hp.
  destruct Hp as [<- | [<- | []]]; [exists 1 | exists (-1)];
    vec_cbv; apply Vec_eq; ring.
Qed.

Lemma bestfit_plane_collinear_witness :
  vy (mkVec 2 0 0) = 0 /\ vz (mkVec 2 0 0) = 0 /\
  bestfit_plane_numpy svd_two_points two_points =
    inr ([centroid two_points], row2 identity3) /\
  length_vector (row2 identity3) = 1.
Proof.
  apply (bestfit_plane_collinear svd_two_points two_points identity3 (mkVec 2 0 0)
           identity3).
  - cbn [two_points length]. lia.
  - exact two_points_collinear.
  - reflexivity.
  - exact two_points_svd.
Defined.

(** ** The sphere fit *)

Lemma sum_list_map_plus {A : Type} (f g : A -> R) (l : list A) :
  sum_list (map (fun a => f a + g a) l) = sum_list (map f l) + sum_list (map g l).
Proof.
  induction l as [| a l IH]; [cbn; ring |].
  cbn [map]. rewrite !sum_list_cons, IH. ring.
Qed.

Lemma sum_list_map_scale {A : Type} (f : A -> R) (k : R) (l : list A) :
  sum_list (map (fun a => k * f a) l) = k * sum_list (map f l).
Proof.
  induction l as [| a l IH]; [cbn; ring |].
  cbn [map]. rewrite !sum_list_cons, IH. ring.
Qed.

Lemma sum_list_map_ext {A : Type} (f g : A -> R) (l : list A) :
  (forall a, f a = g a) -> sum_list (map f l) = sum_list (map g l).
Proof. intros H. f_equal. apply map_ext, H. Qed.

Lemma residual_sphere (points : list Vec) (C : Row4) :
  residual (map sphere_row points) (map sphere_rhs points) C =
  sum_list (map (fun p => sphere_residual C p * sphere_residual C p) points).
Proof.
  rewrite residual_points. apply sum_list_map_ext. intros p.
  unfold sphere_residual. ring.
Qed.

(** At a least-squares solution the residuals add up to zero. *)
Lemma least_squares_residual_sum (points : list Vec) (C : Row4) :
  points <> [] ->
  is_least_squares (map sphere_row points) (map sphere_rhs points) C ->
  sum_list (map (sphere_residual C) points) = 0.
Proof.
  intros Hl Hmin.
  assert (Hn : 0 < INR (length points)).
  { destruct points; [contradiction |]. apply INR_length_pos. cbn [length]. lia. }
  set (S1 := sum_list (map (sphere_residual C) points)).
  set (e := - S1 / INR (length points)).
  pose proof (Hmin (mkRow4 (c0 C) (c1 C) (c2 C) (c3 C + e))) as H.
  rewrite !residual_sphere in H.
  assert (E : sum_list (map (fun p => sphere_residual (mkRow4 (c0 C) (c1 C) (c2 C) (c3 C + e)) p
                                     * sphere_residual (mkRow4 (c0 C) (c1 C) (c2 C) (c3 C + e)) p)
                          points) =
              sum_list (map (fun p => sphere_residual C p * sphere_residual C p) points)
              + 2 * e * S1 + INR (length points) * (e * e)).
  { unfold S1.
    rewrite <- (sum_list_const (fun _ : Vec => e * e) (e * e) points) by reflexivity.
    rewrite <- sum_list_map_scale, <- !sum_list_map_plus.
    apply sum_list_map_ext. intros p.
    unfold sphere_residual, dot4, sphere_row. cbn [c0 c1 c2 c3]. ring. }
  rewrite E in H.
  assert (HS : S1 * S1 <= 0).
  { assert (Q : 2 * e * S1 + INR (length points) * (e * e)
                = - (S1 * S1) / INR (length points)).
    { unfold e. field. lra. }
    assert (0 <= - (S1 * S1) / INR (length points)) by lra.
    assert (0 <= - (S1 * S1)).
    { apply Rmult_le_reg_r with (/ INR (length points)).
      - apply Rinv_0_lt_compat, Hn.
      - rewrite Rmult_0_l. exact H0. }
    lra. }
  nra.
Qed.

(** X25.  The fitted radius is never [nan]: for a non-empty input and a
    least-squares solution, the number under the square root is the mean
    of the squared distances of the points from the returned centre, so the
    sphere fit returns the centre and the square root of that mean. *)
Theorem bestfit_sphere_radius
  (lstsq : list Row4 -> list R -> result Row4) (points : list Vec) (C : Row4) :
  points <> [] ->
  lstsq (map sphere_row points) (map sphere_rhs points) = inr C ->
  is_least_squares (map sphere_row points) (map sphere_rhs points) C ->
  let center := mkVec (c0 C) (c1 C) (c2 C) in
  let mean_square :=
    mean (map (fun p => dot_vectors (subtract_vectors p center)
                                    (subtract_vectors p center)) points) in
  c0 C * c0 C + c1 C * c1 C + c2 C * c2 C + c3 C = mean_square /\
  0 <= mean_square /\
  bestfit_sphere_numpy lstsq points = inr (center, Some (sqrt mean_square)).
Proof.
  intros Hl E Hmin center mean_square.
  assert (Hn : 0 < INR (length points)).
  { destruct points; [contradiction |]. apply INR_length_pos. cbn [length]. lia. }
  pose proof (least_squares_residual_sum points C Hl Hmin) as HS.
  assert (Ht : c0 C * c0 C + c1 C * c1 C + c2 C * c2 C + c3 C = mean_square).
  { unfold mean_square, mean. rewrite length_map.
    apply Rmult_eq_reg_l with (INR (length points)); [| lra].
    replace (INR (length points) *
             (sum_list (map (fun p => dot_vectors (subtract_vectors p center)
                                        (subtract_vectors p center)) points)
              / INR (length points)))
      with (sum_list (map (fun p => dot_vectors (subtract_vectors p center)
                                      (subtract_vectors p center)) points))
      by (field; lra).
    rewrite <- (sum_list_const
                  (fun _ : Vec => c0 C * c0 C + c1 C * c1 C + c2 C * c2 C + c3 C)
                  _ points) by reflexivity.
    rewrite <- (Rplus_0_r (sum_list (map (fun p => dot_vectors _ _) points))).
    rewrite <- HS, <- sum_list_map_plus.
    apply sum_list_map_ext. intros p.
    unfold sphere_residual, dot4, sphere_row, sphere_rhs, center.
    cbn [c0 c1 c2 c3]. destruct p. vec_cbv. ring. }
  assert (Hpos : 0 <= mean_square).
  { unfold mean_square, mean. rewrite length_map.
    apply Rmult_le_pos.
    - apply sum_list_nonneg. intros r Hr. apply in_map_iff in Hr as (p & <- & _).
      apply dot_self_nonneg.
    - apply Rlt_le, Rinv_0_lt_compat, Hn. }
  repeat split; try assumption.
  rewrite bestfit_sphere_unfold, E. cbn [bind]. unfold ret. do 2 f_equal.
  rewrite Ht. unfold np_sqrt.
  destruct (Rlt_dec mean_square 0) as [H | _]; [lra | reflexivity].
Qed.

Lemma bestfit_sphere_radius_witness :
  let center := mkVec (c0 (mkRow4 0 0 0 1)) (c1 (mkRow4 0 0 0 1)) (c2 (mkRow4 0 0 0 1)) in
  let mean_square :=
    mean (map (fun p => dot_vectors (subtract_vectors p center)
                                    (subtract_vectors p center)) four_points) in
  c0 (mkRow4 0 0 0 1) * c0 (mkRow4 0 0 0 1) + c1 (mkRow4 0 0 0 1) * c1 (mkRow4 0 0 0 1)
    + c2 (mkRow4 0 0 0 1) * c2 (mkRow4 0 0 0 1) + c3 (mkRow4 0 0 0 1) = mean_square /\
  0 <= mean_square /\
  bestfit_sphere_numpy lstsq_unit_sphere four_points =
    inr (center, Some (sqrt mean_square)).
Proof.
  apply (bestfit_sphere_radius lstsq_unit_sphere four_points (mkRow4 0 0 0 1)).
  - discriminate.
  - reflexivity.
  - exact four_points_least_squares.
Defined.

(** X26.  For points that are not on one plane the least-squares solution
    is unique, so the sphere fit does not depend on the solver: two solvers
    that both return a least-squares solution of the system give the same
    centre and radius. *)
Theorem bestfit_sphere_solver_independent
  (lstsq1 lstsq2 : list Row4 -> list R -> result Row4)
  (points : list Vec) (C1 C2 : Row4) :
  points <> [] ->
  ~ coplanar points ->
  lstsq1 (map sphere_row points) (map sphere_rhs points) = inr C1 ->
  is_least_squares (map sphere_row points) (map sphere_rhs points) C1 ->
  lstsq2 (map sphere_row points) (map sphere_rhs points) = inr C2 ->
  is_least_squares (map sphere_row points) (map sphere_rhs points) C2 ->
  C1 = C2 /\
  bestfit_sphere_numpy lstsq1 points = bestfit_sphere_numpy lstsq2 points.
Proof.
  intros Hl Hspace E1 H1 E2 H2.
  assert (HC : C1 = C2).
  { pose proof (H1 (row4_mid C1 C2)) as M1. pose proof (H2 (row4_mid C1 C2)) as M2.
    pose proof (H1 C2) as L12. pose proof (H2 C1) as L21.
    rewrite !residual_sphere in *.
    set (D := fun p => sphere_residual C1 p - sphere_residual C2 p).
    assert (Emid : sum_list (map (fun p => sphere_residual (row4_mid C1 C2) p
                                           * sphere_residual (row4_mid C1 C2) p) points)
                 = / 2 * sum_list (map (fun p => sphere_residual C1 p * sphere_residual C1 p) points)
                   + / 2 * sum_list (map (fun p => sphere_residual C2 p * sphere_residual C2 p) points)
                   + - / 4 * sum_list (map (fun p => D p * D p) points)).
    { rewrite <- !sum_list_map_scale, <- !sum_list_map_plus.
      apply sum_list_map_ext. intros p.
      unfold D, sphere_residual, row4_mid, dot4, sphere_row. cbn [c0 c1 c2 c3]. field. }
    rewrite Emid in M1, M2.
    assert (HD : sum_list (map (fun p => D p * D p) points) = 0).
    { assert (0 <= sum_list (map (fun p => D p * D p) points)).
      { apply sum_list_nonneg. intros r Hr.
        apply in_map_iff in Hr as (p & <- & _). nra. }
      lra. }
    assert (Hd : forall p, In p points -> D p = 0).
    { intros p Hp.
      assert (D p * D p = 0).
      { apply (sum_list_nonneg_zero _) with (2 := HD).
        - intros r Hr. apply in_map_iff in Hr as (q & <- & _). nra.
        - apply in_map_iff. exists p. split; [reflexivity | exact Hp]. }
      nra. }
    set (d := mkVec (c0 C1 - c0 C2) (c1 C1 - c1 C2) (c2 C1 - c2 C2)).
    set (e := c3 C1 - c3 C2).
    assert (Hplane : forall p, In p points -> dot_vectors d p = - e / 2).
    { intros p Hp. specialize (Hd p Hp). unfold D, sphere_residual, dot4, sphere_row in Hd.
      cbn [c0 c1 c2 c3] in Hd. unfold d, e. destruct p. vec_cbv. lra. }
    assert (Hz : d = zero_vector).
    { destruct (vec_zero_dec d) as [Z | NZ]; [exact Z | exfalso].
      apply Hspace. exists d, (- e / 2). split; assumption. }
    assert (He : e = 0).
    { destruct points as [| p l]; [contradiction |].
      pose proof (Hplane p (or_introl eq_refl)) as H. rewrite Hz in H.
      destruct p. vec_cbv. lra. }
    unfold d, zero_vector in Hz. injection Hz as Z0 Z1 Z2. unfold e in He.
    destruct C1, C2. cbn [c0 c1 c2 c3] in *. f_equal; lra. }
  split; [exact HC |].
  rewrite !bestfit_sphere_unfold, E1, E2, HC. reflexivity.
Qed.

Lemma bestfit_sphere_solver_independent_witness :
  mkRow4 0 0 0 1 = mkRow4 0 0 0 1 /\
  bestfit_sphere_numpy lstsq_unit_sphere four_points =
  bestfit_sphere_numpy (fun _ _ => ret (mkRow4 0 0 0 1)) four_points.
Proof.
  apply (bestfit_sphere_solver_independent lstsq_unit_sphere
           (fun _ _ => ret (mkRow4 0 0 0 1)) four_points (mkRow4 0 0 0 1) (mkRow4 0 0 0 1)).
  - discriminate.
  - exact four_points_not_coplanar.
  - reflexivity.
  - exact four_points_least_squares.
  - reflexivity.
  - exact four_points_least_squares.
Defined.

(** ** The circle fit *)

Lemma circle_dist_length (rst : list Vec) (xc yc : R) :
  length (circle_dist (map vx rst) (map vy rst) xc yc) = length rst.
Proof.
  unfold circle_dist. rewrite length_map, combine_map, length_map. reflexivity.
Qed.

Lemma circle_dist_nonneg (x y : list R) (xc yc r : R) :
  In r (circle_dist x y xc yc) -> 0 <= r.
Proof.
  unfold circle_dist. intros H. apply in_map_iff in H as (xy & <- & _).
  apply sqrt_pos.
Qed.

(** X27.  When its collaborators return and the projected point set is
    not empty, the circle fit prints one number, the sum of squared
    deviations of the distances from their mean, and returns that mean as
    radius: the radius is not negative, the printed number is not negative,
    and it is 0 exactly when all projected points have the same distance
    from the fitted centre. *)
Theorem bestfit_circle_radius
  (leastsq : (R * R -> list R) -> R * R -> result ((R * R) * Z))
  (pca_numpy : list Vec -> result (Vec * Mat3 * Vec))
  (local_coords_numpy global_coords_numpy : Vec -> Mat3 -> list Vec -> result (list Vec))
  (points : list Vec) (o : Vec) (uvw : Mat3) (sv : Vec) (rst : list Vec)
  (c : R * R) (ier : Z) (xyz : Vec) (rest : list Vec) :
  pca_numpy points = inr (o, uvw, sv) ->
  local_coords_numpy o uvw points = inr rst ->
  rst <> [] ->
  leastsq (circle_f (map vx rst) (map vy rst))
          (mean (map vx rst), mean (map vy rst)) = inr (c, ier) ->
  global_coords_numpy o uvw [mkVec (fst c) (snd c) 0] = inr (xyz :: rest) ->
  let Ri := circle_dist (map vx rst) (map vy rst) (fst c) (snd c) in
  exists residu,
    bestfit_circle_numpy leastsq pca_numpy local_coords_numpy global_coords_numpy points
      = ([residu], inr (xyz, row2 uvw, mean Ri)) /\
    0 <= mean Ri /\
    0 <= residu /\
    (residu = 0 <-> forall r, In r Ri -> r = mean Ri).
Proof.
  intros Hpca Hloc Hne Hsolve Hglob Ri.
  exists (sum_list (map (fun r => (r - mean Ri) ^ 2) Ri)).
  split; [| split; [| split]].
  - unfold bestfit_circle_numpy. rewrite Hpca, Hloc, Hsolve, Hglob. reflexivity.
  - unfold mean. apply Rmult_le_pos.
    + apply sum_list_nonneg. intros r Hr. eapply circle_dist_nonneg, Hr.
    + apply Rlt_le, Rinv_0_lt_compat. unfold Ri.
      rewrite circle_dist_length.
      destruct rst; [contradiction |]. apply INR_length_pos. cbn [length]. lia.
  - apply sum_list_nonneg. intros r Hr. apply in_map_iff in Hr as (q & <- & _).
    apply pow2_ge_0.
  - split.
    + intros H0 r Hr.
      assert (Hsq : (r - mean Ri) ^ 2 = 0).
      { apply (sum_list_nonneg_zero _) with (2 := H0).
        - intros t Ht. apply in_map_iff in Ht as (q & <- & _). apply pow2_ge_0.
        - apply in_map_iff. exists r. split; [reflexivity | exact Hr]. }
      generalize dependent (mean Ri). intros m _ Hsq. nra.
    + intros H. apply sum_list_zero. intros t Ht.
      apply in_map_iff in Ht as (q & <- & Hq). rewrite (H q Hq). ring.
Qed.

Lemma bestfit_circle_radius_witness :
  let Ri := circle_dist (map vx three_points) (map vy three_points)
              (fst (mean (map vx three_points), mean (map vy three_points)))
              (snd (mean (map vx three_points), mean (map vy three_points))) in
  exists residu,
    bestfit_circle_numpy leastsq_exhausted pca_world coords_world coords_world three_points
      = ([residu],
         inr (mkVec (mean (map vx three_points)) (mean (map vy three_points)) 0,
              row2 identity3, mean Ri)) /\
    0 <= mean Ri /\
    0 <= residu /\
    (residu = 0 <-> forall r, In r Ri -> r = mean Ri).
Proof.
  apply (bestfit_circle_radius leastsq_exhausted pca_world coords_world coords_world
           three_points zero_vector identity3 zero_vector three_points
           (mean (map vx three_points), mean (map vy three_points)) 5%Z
           (mkVec (mean (map vx three_points)) (mean (map vy three_points)) 0) []);
    try reflexivity.
  discriminate.
Defined.

(* ================================================================== *)
(** * Part V: the face selector *)
(* ================================================================== *)

Section FaceSelectorProps.

Variable guid : Type.
Variable value : Type.
Variable ObjectName : guid -> string.
Variable literal_eval : string -> result value.
Variable prefix : string.

Lemma select_faces_loop_spec (guids : list guid) (seen : list string) (keys : list value) :
  select_faces_loop guid value ObjectName literal_eval prefix guids seen keys =
  (vs <- eval_keys value literal_eval
           (map (face_key guid ObjectName)
                (filter (fun g => is_face prefix (split "."%char (ObjectName g))) guids)) ;;
   ret (keys ++ vs))%result.
Proof.
  revert seen keys. induction guids as [| g rest IH]; intros seen keys.
  - cbn. rewrite app_nil_r. reflexivity.
  - cbn [select_faces_loop filter]. unfold is_face.
    destruct (contains "face" (split "."%char (ObjectName g))); cbn [andb].
    + destruct ((if String.eqb prefix EmptyString then true else false)
                || contains prefix (split "."%char (ObjectName g))).
      * cbn [set_add truth_of_None negb map eval_keys]. fold (face_key guid ObjectName g).
        unfold bind at 1 3.
        destruct (literal_eval (face_key guid ObjectName g)) as [e | v]; [reflexivity |].
        rewrite IH. unfold bind, ret.
        destruct (eval_keys value literal_eval _) as [e | vs]; [reflexivity |].
        rewrite <- app_assoc. reflexivity.
      * apply IH.
    + apply IH.
Qed.

End FaceSelectorProps.

(** X28.  [select_faces] does not remove duplicates: the set [seen] is
    filled but never decides anything, so the result holds one evaluated
    key for every selected object whose name has the component ['face']
    (and the prefix, when there is one), in the order of the selection; an
    object selected twice gives its key twice.  Without a selection the
    result is empty. *)
Theorem select_faces_keeps_duplicates
  (guid value : Type) (ObjectName : guid -> string)
  (literal_eval : string -> result value) (prefix : string) :
  (forall guids : list guid,
     select_faces guid value ObjectName literal_eval prefix (Some guids) =
     eval_keys value literal_eval
       (map (face_key guid ObjectName)
            (filter (fun g => is_face prefix (split "."%char (ObjectName g))) guids))) /\
  select_faces guid value ObjectName literal_eval prefix None = inr [] /\
  (forall (g : guid) (k : value),
     is_face prefix (split "."%char (ObjectName g)) = true ->
     literal_eval (face_key guid ObjectName g) = inr k ->
     select_faces guid value ObjectName literal_eval prefix (Some [g; g]) = inr [k; k]).
Proof.
  assert (H : forall guids : list guid,
     select_faces guid value ObjectName literal_eval prefix (Some guids) =
     eval_keys value literal_eval
       (map (face_key guid ObjectName)
            (filter (fun g => is_face prefix (split "."%char (ObjectName g))) guids))).
  { intros [| g guids]; [reflexivity |].
    unfold select_faces. rewrite select_faces_loop_spec.
    unfold bind, ret. destruct (eval_keys _ _ _) as [e | vs]; reflexivity. }
  split; [exact H | split; [reflexivity |]].
  intros g k Hg Hk. rewrite H. cbn [filter]. rewrite Hg.
  cbn [map eval_keys]. rewrite Hk. reflexivity.
Qed.

Lemma select_faces_keeps_duplicates_witness :
  select_faces string string (fun g => g) (fun s => ret s) EmptyString
    (Some ["mesh.face.3"%string; "mesh.face.3"%string]) =
  inr ["3"%string; "3"%string].
Proof.
  apply (proj2 (proj2 (select_faces_keeps_duplicates string string (fun g => g)
                         (fun s => ret s) EmptyString))
           "mesh.face.3"%string "3"%string); reflexivity.
Defined.

